(** * PtyGenerator: pseudo-terminal allocation and child bootstrap

    A shallow embedding of [terminator/trunk/native/all/pty/PtyGenerator.h]
    (class [PtyGenerator]) and the properties of it that the design document
    states.

    The C++ code is a sequence of system calls whose results decide the
    control flow.  It is embedded as follows.

    - The process is a [World]: the two fields of the [PtyGenerator] object,
      [errno], the table of open descriptors, the environment and the list of
      calls made so far.
    - What the operating system answers to each call is an [OS]: one field per
      call, a function of the call's arguments.  Nothing is assumed about an
      [OS]; theorems quantify over all of them.
    - A C++ function is a computation [M A]: from a [World] to an [Outcome]
      and the [World] it leaves.  An [Outcome] is a normal return, a thrown
      C++ exception, a replaced process image or a terminated process. *)

From Stdlib Require Import Ascii String.
From stdpp Require Import base numbers option list strings pretty gmap sets.

Local Open Scope string_scope.
Local Open Scope list_scope.
Local Open Scope Z_scope.

(** ** C++ exceptions *)

(** The exception classes the file throws, and the standard ones they are
    derived from. *)
Inductive cxx_class : Set :=
  | std_exception
  | std_runtime_error
  | unix_exception
  | child_exception
  | child_exception_via_pipe.

Global Instance cxx_class_eq_dec : EqDecision cxx_class.
Proof. solve_decision. Defined.

Inductive access : Set := Public | Private.

(** The direct base class of each class with the access of the derivation.
    [child_exception] is declared [: public unix_exception]; the declaration
    of [child_exception_via_pipe] reads [class child_exception_via_pipe :
    child_exception], and a [class] derives privately when no access is
    written.

    Modelled from the spec: [unix_exception.h] is not part of the sources at
    hand.  The design reports an exec failure on standard error, which the
    handler in [forkAndExec] does for what it catches as [std::exception];
    [unix_exception] is therefore a public [std::runtime_error]. *)
Definition direct_base (c : cxx_class) : option (access * cxx_class) :=
  match c with
  | std_exception => None
  | std_runtime_error => Some (Public, std_exception)
  | unix_exception => Some (Public, std_runtime_error)
  | child_exception => Some (Public, unix_exception)
  | child_exception_via_pipe => Some (Private, child_exception)
  end.

(** [public_base fuel b c]: [b] is reached from [c] through public
    derivations only. *)
Fixpoint public_base (fuel : nat) (b c : cxx_class) : bool :=
  match fuel with
  | O => false
  | S fuel' =>
      match direct_base c with
      | Some (Public, c') => bool_decide (c' = b) || public_base fuel' b c'
      | _ => false
      end
  end.

(** The rule of the language for handlers: [catch (const T&)] matches an
    exception object of class [E] when [T] is [E], or when [T] is an
    unambiguous public base class of [E].  A base reached through a private
    derivation does not count, wherever the handler stands. *)
Definition handler_matches (T E : cxx_class) : bool :=
  bool_decide (T = E) || public_base 4 T E.

Record exn : Set := Exn { exn_class : cxx_class; what : string }.

Global Instance exn_eq_dec : EqDecision exn.
Proof. solve_decision. Defined.

(** ** System calls and the process state *)

Inductive oflag : Set := O_RDWR | O_NOCTTY.
Inductive ioctl_req : Set := TIOCSCTTY | I_PUSH (module : string).
Inductive signum : Set := SIGINT | SIGQUIT | SIGCHLD.

Global Instance oflag_eq_dec : EqDecision oflag.
Proof. solve_decision. Defined.
Global Instance ioctl_req_eq_dec : EqDecision ioctl_req.
Proof. solve_decision. Defined.
Global Instance signum_eq_dec : EqDecision signum.
Proof. solve_decision. Defined.

(** One entry per call the process makes, with the arguments it passes. *)
Inductive Event : Set :=
  | EvOpen (path : string) (flags : list oflag) (ret : Z)
  | EvClose (fd : Z)
  | EvPtsname (fd : Z)
  | EvGrantpt (fd : Z)
  | EvUnlockpt (fd : Z)
  | EvGetgrnam (name : string)
  | EvChown (path : string) (uid gid : Z)
  | EvChmod (path : string) (mode : Z)
  | EvChdir (path : string)
  | EvSetsid
  | EvIoctl (fd : Z) (req : ioctl_req)
  | EvDup2 (oldfd newfd : Z)
  | EvReaddir (dir : string)
  | EvPutenv (assignment : string)
  | EvUnsetenv (name : string)
  | EvSignalDfl (sig : signum)
  | EvExecvp (file : string) (argv : list string)
  | EvFprintf (fd : Z) (text : string)
  | EvCerr (text : string)
  | EvExit (status : Z).

Global Instance Event_eq_dec : EqDecision Event.
Proof. solve_decision. Defined.

Record World : Type := mkWorld {
  ptyName : string;               (* PtyGenerator::ptyName *)
  masterFd : Z;                   (* PtyGenerator::masterFd *)
  errno : Z;
  fds : gset Z;                   (* the descriptors that are open *)
  environ : gmap string string;
  trace : list Event;             (* the calls made, oldest first *)
}.

Definition set_ptyName (s : string) (w : World) : World :=
  mkWorld s (masterFd w) (errno w) (fds w) (environ w) (trace w).
Definition set_masterFd (fd : Z) (w : World) : World :=
  mkWorld (ptyName w) fd (errno w) (fds w) (environ w) (trace w).
Definition set_errno (e : Z) (w : World) : World :=
  mkWorld (ptyName w) (masterFd w) e (fds w) (environ w) (trace w).
Definition set_fds (s : gset Z) (w : World) : World :=
  mkWorld (ptyName w) (masterFd w) (errno w) s (environ w) (trace w).
Definition set_environ (m : gmap string string) (w : World) : World :=
  mkWorld (ptyName w) (masterFd w) (errno w) (fds w) m (trace w).
Definition log (e : Event) (w : World) : World :=
  mkWorld (ptyName w) (masterFd w) (errno w) (fds w) (environ w) (trace w ++ [e]).

(** [PtyGenerator() : masterFd(-1)] in a process with the given descriptors
    and environment. *)
Definition new_PtyGenerator (open : gset Z) (env : gmap string string) : World :=
  mkWorld "" (-1) 0 open env [].

(** The answer to a call that returns 0 (or a descriptor) on success and -1
    with [errno] set on failure. *)
Inductive sysret : Set := Ok | Fail (err : Z).

Definition ENOENT : Z := 2.

Definition newline : string := String (Ascii.ascii_of_nat 10) "".

(** The operating system and the platform the file is compiled for. *)
Record OS : Type := mkOS {
  defined_TIOCSCTTY : bool;       (* #if defined(TIOCSCTTY) *)
  defined_sun : bool;             (* #if defined(__sun__) *)
  defined_APPLE : bool;           (* #ifdef __APPLE__ *)
  ulong_bits : Z;                 (* width of unsigned long *)
  os_open : string -> sysret;
  os_ptsname : Z -> string + Z;   (* the name, or NULL with errno *)
  os_grantpt : Z -> sysret;
  os_unlockpt : Z -> sysret;
  os_getgrnam : string -> option Z;
  os_getuid : Z;
  os_getppid : Z;
  os_chown : string -> Z -> Z -> sysret;
  os_chmod : string -> Z -> sysret;
  os_chdir : string -> sysret;
  os_setsid : sysret;
  os_fork : Z;                    (* what fork() returns in this process *)
  os_ioctl : Z -> ioctl_req -> sysret;
  os_dup2 : Z -> Z -> sysret;
  os_readdir : string -> list string;
  os_execvp : string -> list string -> sysret;
  os_strerror : Z -> string;
}.

(** ** Computations *)

Inductive Outcome (A : Type) : Type :=
  | Ret (a : A)                   (* the function returns [a] *)
  | Throw (e : exn)               (* an exception leaves the function *)
  | Replaced                      (* execvp succeeded: the program is gone *)
  | Exited (status : Z).          (* exit(status) *)
Arguments Ret {A} a.
Arguments Throw {A} e.
Arguments Replaced {A}.
Arguments Exited {A} status.

Definition M (A : Type) : Type := World -> Outcome A * World.

Definition ret {A} (a : A) : M A := fun w => (Ret a, w).

Definition bind {A B} (m : M A) (k : A -> M B) : M B := fun w =>
  match m w with
  | (Ret a, w') => k a w'
  | (Throw e, w') => (Throw e, w')
  | (Replaced, w') => (Replaced, w')
  | (Exited s, w') => (Exited s, w')
  end.

Notation "'let*' x ':=' m 'in' k" := (bind m (fun x => k))
  (at level 10, x name, m at level 100, k at level 200).

Definition throw {A} (e : exn) : M A := fun w => (Throw e, w).
Definition gets {A} (f : World -> A) : M A := fun w => (Ret (f w), w).
Definition modify (f : World -> World) : M unit := fun w => (Ret tt, f w).
Definition emit (e : Event) : M unit := modify (log e).

(** [try { body } catch (const T& ex) { handler }]. *)
Definition try_catch {A} (body : M A) (T : cxx_class) (handler : exn -> M A) : M A :=
  fun w =>
    match body w with
    | (Throw e, w') =>
        if handler_matches T (exn_class e) then handler e w' else (Throw e, w')
    | r => r
    end.

(** [exit(status)]. *)
Definition sys_exit {A} (status : Z) : M A :=
  fun w => (Exited status, log (EvExit status) w).

(** The lowest descriptor that is not open: what [open] returns. *)
Fixpoint lowest_free_from (fuel : nat) (s : gset Z) (n : Z) : Z :=
  match fuel with
  | O => n
  | S fuel' => if decide (n ∈ s) then lowest_free_from fuel' s (n + 1) else n
  end.

Definition lowest_free (s : gset Z) : Z := lowest_free_from (size s) s 0.

Section Syscalls.
Variable os : OS.

(** A call that answers -1 with [errno] set when it fails.  The code compares
    the answers of these calls with 0 only, so 0 stands for every answer of a
    call that succeeds (the session id of [setsid], for one). *)
Definition answer (e : Event) (r : sysret) : M Z := fun w =>
  match r with
  | Ok => (Ret 0, log e w)
  | Fail err => (Ret (-1), set_errno err (log e w))
  end.

Definition sys_open (path : string) (flags : list oflag) : M Z := fun w =>
  match os_open os path with
  | Ok =>
      let fd := lowest_free (fds w) in
      (Ret fd, log (EvOpen path flags fd) (set_fds ({[fd]} ∪ fds w) w))
  | Fail err => (Ret (-1), set_errno err (log (EvOpen path flags (-1)) w))
  end.

Definition sys_close (fd : Z) : M unit :=
  modify (fun w => log (EvClose fd) (set_fds (fds w ∖ {[fd]}) w)).

Definition sys_dup2 (oldfd newfd : Z) : M Z := fun w =>
  match os_dup2 os oldfd newfd with
  | Ok => (Ret newfd, log (EvDup2 oldfd newfd) (set_fds ({[newfd]} ∪ fds w) w))
  | Fail err => (Ret (-1), set_errno err (log (EvDup2 oldfd newfd) w))
  end.

Definition sys_ptsname (fd : Z) : M (option string) := fun w =>
  match os_ptsname os fd with
  | inl name => (Ret (Some name), log (EvPtsname fd) w)
  | inr err => (Ret None, set_errno err (log (EvPtsname fd) w))
  end.

Definition sys_grantpt (fd : Z) : M Z := answer (EvGrantpt fd) (os_grantpt os fd).
Definition sys_unlockpt (fd : Z) : M Z := answer (EvUnlockpt fd) (os_unlockpt os fd).
Definition sys_chown (path : string) (uid gid : Z) : M Z :=
  answer (EvChown path uid gid) (os_chown os path uid gid).
Definition sys_chmod (path : string) (mode : Z) : M Z :=
  answer (EvChmod path mode) (os_chmod os path mode).
Definition sys_chdir (path : string) : M Z := answer (EvChdir path) (os_chdir os path).
Definition sys_setsid : M Z := answer EvSetsid (os_setsid os).
Definition sys_ioctl (fd : Z) (req : ioctl_req) : M Z :=
  answer (EvIoctl fd req) (os_ioctl os fd req).

Definition sys_fork : M Z := gets (fun _ => os_fork os).

Definition sys_getgrnam (name : string) : M (option Z) := fun w =>
  (Ret (os_getgrnam os name), log (EvGetgrnam name) w).

(** [signal(sig, SIG_DFL)]; the value it returns is not looked at. *)
Definition signal_dfl (sig : signum) : M unit := emit (EvSignalDfl sig).

(** [execvp(file, argv)] returns only when it fails. *)
Definition sys_execvp (file : string) (argv : list string) : M Z := fun w =>
  match os_execvp os file argv with
  | Ok => (Replaced, log (EvExecvp file argv) w)
  | Fail err => (Ret (-1), set_errno err (log (EvExecvp file argv) w))
  end.

(** Modelled from the spec: [toString.h] is not part of the sources at hand;
    a number is rendered in decimal and a C string as it is. *)
Definition toString (n : Z) : string := pretty n.

(** Modelled from the spec: [unix_exception.h] is not part of the sources at
    hand.  An exception of this class carries the underlying OS error: its
    text is the message it is given followed by a rendering of [errno]. *)
Definition new_unix_exception (c : cxx_class) (message : string) : M exn :=
  fun w => (Ret (Exn c (message +:+ os_strerror os (errno w))), w).

Definition new_runtime_error (message : string) : exn :=
  Exn std_runtime_error message.

(** [child_exception(message)] is [unix_exception("Error from child: " +
    message)]. *)
Definition new_child_exception (c : cxx_class) (message : string) : M exn :=
  new_unix_exception c ("Error from child: " +:+ message).

(** [child_exception_via_pipe(pipeFd, message)]: the constructor prints the
    text and a newline on a stream it opens over [pipeFd] ([fdopen], then
    [fprintf]). *)
Definition new_child_exception_via_pipe (pipeFd : Z) (message : string) : M exn :=
  let* ex := new_child_exception child_exception_via_pipe message in
  let* _ := emit (EvFprintf pipeFd (what ex +:+ newline)) in
  ret ex.


(** *** [search_for_pty] *)

Definition out_of_ptys : exn :=
  new_runtime_error "Out of pseudo-terminal devices".

(** The two character strings the loops walk over. *)
Definition ptr1_chars : list ascii := list_ascii_of_string "pqrstuvwxyzPQRST".
Definition ptr2_chars : list ascii := list_ascii_of_string "0123456789abcdef".

(** [s.append(1, c1); s.append(1, c2)]. *)
Definition append2 (s : string) (c1 c2 : ascii) : string :=
  s +:+ String c1 (String c2 "").

(** One turn of the inner loop body: [Some fdm] for [return fdm], [None]
    for [continue]. *)
Definition try_candidate (c1 c2 : ascii) : M (option Z) :=
  let* _ := modify (set_ptyName (append2 "/dev/pty" c1 c2)) in
  let* name := gets ptyName in
  let* fdm := sys_open name [O_RDWR] in
  if fdm <? 0 then
    let* e := gets errno in
    if e =? ENOENT then throw out_of_ptys else ret None
  else
    let* _ := modify (set_ptyName (append2 "/dev/tty" c1 c2)) in
    ret (Some fdm).

Fixpoint inner_loop (c1 : ascii) (l2 : list ascii) : M (option Z) :=
  match l2 with
  | [] => ret None
  | c2 :: l2' =>
      let* r := try_candidate c1 c2 in
      match r with
      | Some fdm => ret (Some fdm)
      | None => inner_loop c1 l2'
      end
  end.

Fixpoint outer_loop (l1 : list ascii) : M Z :=
  match l1 with
  | [] => throw out_of_ptys
  | c1 :: l1' =>
      let* r := inner_loop c1 ptr2_chars in
      match r with
      | Some fdm => ret fdm
      | None => outer_loop l1'
      end
  end.

Definition search_for_pty : M Z := outer_loop ptr1_chars.

(** *** [ptym_open] and [openMaster] *)

Definition ptym_open : M Z :=
  let* ptmx_fd := sys_open "/dev/ptmx" [O_RDWR] in
  if ptmx_fd <? 0 then search_for_pty
  else
    let* name := sys_ptsname ptmx_fd in
    match name with
    | None =>
        let* ex := new_unix_exception unix_exception
                     ("ptsname(" +:+ toString ptmx_fd +:+ ") failed") in
        throw ex
    | Some name =>
        let* _ := modify (set_ptyName name) in
        let* g := sys_grantpt ptmx_fd in
        if negb (g =? 0) then
          let* ex := new_unix_exception unix_exception
                       ("grantpt(" +:+ name +:+ ") failed") in
          throw ex
        else
          let* u := sys_unlockpt ptmx_fd in
          if negb (u =? 0) then
            let* ex := new_unix_exception unix_exception
                         ("unlockpt(" +:+ name +:+ ") failed") in
            throw ex
          else ret ptmx_fd
    end.

Definition openMaster : M Z :=
  let* fd := ptym_open in
  let* _ := modify (set_masterFd fd) in
  gets masterFd.

Definition getSlavePtyName : M string := gets ptyName.

(** *** [openSlaveAndCloseMaster] *)

Definition gid_t_minus_1 : Z := 4294967295.   (* gid_t(-1), 32 bits *)
Definition S_IRUSR : Z := 256.                (* 0400 *)
Definition S_IWUSR : Z := 128.                (* 0200 *)
Definition S_IWGRP : Z := 16.                 (* 0020 *)

Definition openSlaveAndCloseMaster : M Z :=
  let* grptr := sys_getgrnam "tty" in
  let gid := match grptr with Some gr_gid => gr_gid | None => gid_t_minus_1 end in
  let* cName := gets ptyName in
  let* _ := sys_chown cName (os_getuid os) gid in
  let* _ := sys_chmod cName (Z.lor (Z.lor S_IRUSR S_IWUSR) S_IWGRP) in
  let* fds' := sys_open cName [O_RDWR; O_NOCTTY] in
  if fds' <? 0 then
    let* ex := new_unix_exception unix_exception
                 ("open(" +:+ cName +:+ ", O_RDWR | O_NOCTTY) failed") in
    throw ex
  else
    let* m := gets masterFd in
    let* _ := sys_close m in
    ret fds'.

(** *** [closeUnusedFiles] *)

Definition isspace (c : ascii) : bool :=
  let n := nat_of_ascii c in
  ((n =? 32) || ((9 <=? n) && (n <=? 13)))%nat.

Definition digit_of (c : ascii) : option Z :=
  let n := nat_of_ascii c in
  if ((48 <=? n) && (n <=? 57))%nat then Some (Z.of_nat n - 48) else None.

Fixpoint skip_space (s : string) : string :=
  match s with
  | String c s' => if isspace c then skip_space s' else s
  | EmptyString => s
  end.

Fixpoint digits_value (s : string) (acc : Z) : Z :=
  match s with
  | String c s' =>
      match digit_of c with
      | Some d => digits_value s' (acc * 10 + d)
      | None => acc
      end
  | EmptyString => acc
  end.

Definition ULONG_MAX : Z := 2 ^ ulong_bits os - 1.

(** [strtoul(nptr, NULL, 10)]: white space, an optional sign, decimal
    digits; 0 when there is no digit, [ULONG_MAX] when the number does not
    fit, and a number after a minus sign is negated as an unsigned long. *)
Definition strtoul (nptr : string) : Z :=
  let s := skip_space nptr in
  let '(neg, s) :=
    match s with
    | String c s' =>
        if Ascii.eqb c "-" then (true, s')
        else if Ascii.eqb c "+" then (false, s')
        else (false, s)
    | EmptyString => (false, s)
    end in
  let v := digits_value s 0 in
  if ULONG_MAX <? v then ULONG_MAX
  else if neg then (- v) mod (ULONG_MAX + 1)
  else v.

(** The conversion of an unsigned long to [int] (32 bits). *)
Definition to_int (v : Z) : Z := (v + 2 ^ 31) mod 2 ^ 32 - 2 ^ 31.

Definition STDIN_FILENO : Z := 0.
Definition STDOUT_FILENO : Z := 1.
Definition STDERR_FILENO : Z := 2.

Definition fdDirectory : string :=
  if defined_APPLE os then "/dev/fd" else "/proc/self/fd".

(** Modelled from the spec: [DirectoryIterator.h] is not part of the sources
    at hand.  The iterator walks over the names the platform lists under
    the directory, and it is gone when the first loop is left. *)
Definition sys_readdir (dir : string) : M (list string) := fun w =>
  (Ret (os_readdir os dir), log (EvReaddir dir) w).

(** Pass 1: the body of the first loop, over the names in turn. *)
Fixpoint collect_fds (names : list string) (fds' : list Z) : list Z :=
  match names with
  | [] => fds'
  | name :: names' =>
      let fd := to_int (strtoul name) in
      collect_fds names' (if STDERR_FILENO <? fd then fds' ++ [fd] else fds')
  end.

(** Pass 2. *)
Fixpoint close_fds (fds' : list Z) : M unit :=
  match fds' with
  | [] => ret tt
  | fd :: rest => let* _ := sys_close fd in close_fds rest
  end.

Definition closeUnusedFiles : M unit :=
  let* names := sys_readdir fdDirectory in
  close_fds (collect_fds names []).

(** *** [fixEnvironment] *)

(** [NAME=value] cut at the first [=]. *)
Fixpoint split_assignment (s : string) : option (string * string) :=
  match s with
  | EmptyString => None
  | String c s' =>
      if Ascii.eqb c "=" then Some (EmptyString, s')
      else match split_assignment s' with
           | Some (name, value) => Some (String c name, value)
           | None => None
           end
  end.

(** [putenv] and [unsetenv]; the values they return are not looked at. *)
Definition putenv (s : string) : M unit :=
  modify (fun w =>
    log (EvPutenv s)
      (match split_assignment s with
       | Some (name, value) => set_environ (<[name := value]> (environ w)) w
       | None => set_environ (delete s (environ w)) w
       end)).

Definition unsetenv (name : string) : M unit :=
  modify (fun w => log (EvUnsetenv name) (set_environ (delete name (environ w)) w)).

Definition fixEnvironment : M unit :=
  let* _ := putenv "TERM=terminator" in
  let* _ := unsetenv "WINDOWID" in
  if defined_APPLE os then
    let ppid := os_getppid os in
    let* _ := unsetenv ("APP_ICON_" +:+ toString ppid) in
    let* _ := unsetenv ("APP_NAME_" +:+ toString ppid) in
    let* _ := unsetenv ("JAVA_MAIN_CLASS_" +:+ toString ppid) in
    let* _ := unsetenv "TERM_PROGRAM" in
    unsetenv "TERM_PROGRAM_VERSION"
  else
    unsetenv "COLORTERM".

(** *** [runChild] and [forkAndExec] *)

(** [if (childFd != SLOT && dup2(childFd, SLOT) != SLOT) throw ...]. *)
Definition rebind (childFd slot : Z) (slot_name : string) : M unit :=
  if negb (childFd =? slot) then
    let* r := sys_dup2 childFd slot in
    if negb (r =? slot) then
      let* ex := new_child_exception_via_pipe childFd
                   ("dup2(" +:+ toString childFd +:+ ", " +:+ slot_name +:+ ")") in
      throw ex
    else ret tt
  else ret tt.

(** [cmd] is the argument vector, [cmd[0]] its first entry (the vector is
    not empty); [workingDirectory] is [None] for a null pointer. *)
Definition runChild (cmd : list string) (workingDirectory : option string) : M unit :=
  let* _ :=
    match workingDirectory with
    | Some dir =>
        let* r := sys_chdir dir in
        if r <? 0 then
          let* ex := new_child_exception child_exception
                       ("chdir(" +:+ String (ascii_of_nat 34) "" +:+ dir
                        +:+ String (ascii_of_nat 34) "" +:+ ")") in
          throw ex
        else ret tt
    | None => ret tt
    end in
  let* r := sys_setsid in
  let* _ :=
    if r <? 0 then
      let* ex := new_child_exception child_exception "setsid()" in throw ex
    else ret tt in
  let* childFd := openSlaveAndCloseMaster in
  let* _ :=
    if defined_TIOCSCTTY os then
      let* r := sys_ioctl childFd TIOCSCTTY in
      if r <? 0 then
        let* ex := new_child_exception_via_pipe childFd
                     ("ioctl(" +:+ toString childFd +:+ ", TIOCSCTTY, 0)") in
        throw ex
      else ret tt
    else ret tt in
  let* _ :=
    if defined_sun os then
      let* _ := sys_ioctl childFd (I_PUSH "ptem") in
      let* _ := sys_ioctl childFd (I_PUSH "ldterm") in
      let* _ := sys_ioctl childFd (I_PUSH "ttcompat") in
      ret tt
    else ret tt in
  let* _ := rebind childFd STDIN_FILENO "STDIN_FILENO" in
  let* _ := rebind childFd STDOUT_FILENO "STDOUT_FILENO" in
  let* _ := rebind childFd STDERR_FILENO "STDERR_FILENO" in
  let* _ := if STDERR_FILENO <? childFd then sys_close childFd else ret tt in
  let* _ := closeUnusedFiles in
  let* _ := fixEnvironment in
  let* _ := signal_dfl SIGINT in
  let* _ := signal_dfl SIGQUIT in
  let* _ := signal_dfl SIGCHLD in
  let cmd0 := hd "" cmd in
  let* _ := sys_execvp cmd0 cmd in
  let* ex := new_unix_exception unix_exception
               ("Can't execute '" +:+ cmd0 +:+ "'") in
  throw ex.

(** [std::cerr << ex.what() << std::endl]. *)
Definition cerr_line (text : string) : M unit := emit (EvCerr (text +:+ newline)).

Definition forkAndExec (cmd : list string) (workingDirectory : option string) : M Z :=
  let* pid := sys_fork in
  if pid <? 0 then ret (-1)
  else if pid =? 0 then
    let* _ := try_catch (runChild cmd workingDirectory) std_exception
                (fun ex => cerr_line (what ex)) in
    sys_exit 1
  else ret pid.

End Syscalls.

(** * Vocabulary of the statements *)

(** The name space of the legacy scan in the order the two loops walk it:
    the first letters crossed with the second characters. *)
Definition candidates : list (ascii * ascii) :=
  flat_map (λ c1, map (pair c1) ptr2_chars) ptr1_chars.

Definition master_path (c : ascii * ascii) : string := append2 "/dev/pty" c.1 c.2.
Definition slave_path (c : ascii * ascii) : string := append2 "/dev/tty" c.1 c.2.

(** The open of the candidate's master fails with an error that is not
    [ENOENT]. *)
Definition busy (os : OS) (c : ascii * ascii) : bool :=
  match os_open os (master_path c) with
  | Fail err => negb (err =? ENOENT)
  | Ok => false
  end.

(** The call the scan makes for a candidate, when it fails. *)
Definition failed_open (c : ascii * ascii) : Event :=
  EvOpen (master_path c) [O_RDWR] (-1).

(** The process after the failed open of a candidate. *)
Definition after_failed_open (os : OS) (w : World) (c : ascii * ascii) : World :=
  match os_open os (master_path c) with
  | Fail err => set_errno err (log (failed_open c) (set_ptyName (master_path c) w))
  | Ok => w
  end.

(** The two loops of [search_for_pty] as one loop over a list of candidates,
    with what follows the loops as [k]. *)
Fixpoint scan_then (os : OS) (cs : list (ascii * ascii)) (k : M Z) : M Z :=
  match cs with
  | [] => k
  | c :: cs' =>
      let* r := try_candidate os c.1 c.2 in
      match r with
      | Some fdm => ret fdm
      | None => scan_then os cs' k
      end
  end.

Global Instance sysret_eq_dec : EqDecision sysret.
Proof. solve_decision. Defined.

(** The scan stops at the head of [post] with a master that opens, or [post]
    is empty. *)
Definition head_opens (os : OS) (post : list (ascii * ascii)) : bool :=
  match post with
  | [] => true
  | c :: _ => bool_decide (os_open os (master_path c) = Ok)
  end.

(** ** Systems to run the code on *)

Definition EIO : Z := 5.
Definition EBADF : Z := 9.

(** A system on which every call succeeds, but for [open], which [opens]
    decides: a process with the descriptors 0 to 3 listed, compiled where
    [TIOCSCTTY] is defined. *)
Definition system (opens : string → sysret) : OS := {|
  defined_TIOCSCTTY := true;
  defined_sun := false;
  defined_APPLE := false;
  ulong_bits := 64;
  os_open := opens;
  os_ptsname := λ fd, inl ("/dev/pts/" +:+ pretty fd);
  os_grantpt := λ _, Ok;
  os_unlockpt := λ _, Ok;
  os_getgrnam := λ _, Some 5;
  os_getuid := 1000;
  os_getppid := 4711;
  os_chown := λ _ _ _, Ok;
  os_chmod := λ _ _, Ok;
  os_chdir := λ _, Ok;
  os_setsid := Ok;
  os_fork := 0;
  os_ioctl := λ _ _, Ok;
  os_dup2 := λ _ _, Ok;
  os_readdir := λ _, ["."; ".."; "0"; "1"; "2"; "3"];
  os_execvp := λ _ _, Ok;
  os_strerror := λ err, ": (" +:+ pretty err +:+ ")";
|}.

(** A process with the three standard descriptors open. *)
Definition process : World :=
  new_PtyGenerator {[0; 1; 2]} {["TERM" := "xterm"]}.

(** No multiplexer; the first master is busy, the second does not exist. *)
Definition opens_second_missing (path : string) : sysret :=
  if String.eqb path "/dev/ptyp1" then Fail ENOENT else Fail EIO.

(** No multiplexer; the first master is busy, the second opens. *)
Definition opens_second_only (path : string) : sysret :=
  if String.eqb path "/dev/ptyp1" then Ok else Fail EIO.

(** Nothing opens, and nothing is missing. *)
Definition opens_nothing (path : string) : sysret := Fail EIO.

(** The same system with one answer changed. *)
Definition with_APPLE (v : bool) (os : OS) : OS :=
  mkOS (defined_TIOCSCTTY os) (defined_sun os) v (ulong_bits os) (os_open os)
    (os_ptsname os) (os_grantpt os) (os_unlockpt os) (os_getgrnam os)
    (os_getuid os) (os_getppid os) (os_chown os) (os_chmod os) (os_chdir os)
    (os_setsid os) (os_fork os) (os_ioctl os) (os_dup2 os) (os_readdir os)
    (os_execvp os) (os_strerror os).
Definition with_ptsname (v : Z → string + Z) (os : OS) : OS :=
  mkOS (defined_TIOCSCTTY os) (defined_sun os) (defined_APPLE os) (ulong_bits
    os) (os_open os) v (os_grantpt os) (os_unlockpt os) (os_getgrnam os)
    (os_getuid os) (os_getppid os) (os_chown os) (os_chmod os) (os_chdir os)
    (os_setsid os) (os_fork os) (os_ioctl os) (os_dup2 os) (os_readdir os)
    (os_execvp os) (os_strerror os).
Definition with_grantpt (v : Z → sysret) (os : OS) : OS :=
  mkOS (defined_TIOCSCTTY os) (defined_sun os) (defined_APPLE os) (ulong_bits
    os) (os_open os) (os_ptsname os) v (os_unlockpt os) (os_getgrnam os)
    (os_getuid os) (os_getppid os) (os_chown os) (os_chmod os) (os_chdir os)
    (os_setsid os) (os_fork os) (os_ioctl os) (os_dup2 os) (os_readdir os)
    (os_execvp os) (os_strerror os).
Definition with_chown (v : string → Z → Z → sysret) (os : OS) : OS :=
  mkOS (defined_TIOCSCTTY os) (defined_sun os) (defined_APPLE os) (ulong_bits
    os) (os_open os) (os_ptsname os) (os_grantpt os) (os_unlockpt os)
    (os_getgrnam os) (os_getuid os) (os_getppid os) v (os_chmod os) (os_chdir
    os) (os_setsid os) (os_fork os) (os_ioctl os) (os_dup2 os) (os_readdir os)
    (os_execvp os) (os_strerror os).
Definition with_chmod (v : string → Z → sysret) (os : OS) : OS :=
  mkOS (defined_TIOCSCTTY os) (defined_sun os) (defined_APPLE os) (ulong_bits
    os) (os_open os) (os_ptsname os) (os_grantpt os) (os_unlockpt os)
    (os_getgrnam os) (os_getuid os) (os_getppid os) (os_chown os) v (os_chdir
    os) (os_setsid os) (os_fork os) (os_ioctl os) (os_dup2 os) (os_readdir os)
    (os_execvp os) (os_strerror os).
Definition with_chdir (v : string → sysret) (os : OS) : OS :=
  mkOS (defined_TIOCSCTTY os) (defined_sun os) (defined_APPLE os) (ulong_bits
    os) (os_open os) (os_ptsname os) (os_grantpt os) (os_unlockpt os)
    (os_getgrnam os) (os_getuid os) (os_getppid os) (os_chown os) (os_chmod
    os) v (os_setsid os) (os_fork os) (os_ioctl os) (os_dup2 os) (os_readdir
    os) (os_execvp os) (os_strerror os).
Definition with_fork (v : Z) (os : OS) : OS :=
  mkOS (defined_TIOCSCTTY os) (defined_sun os) (defined_APPLE os) (ulong_bits
    os) (os_open os) (os_ptsname os) (os_grantpt os) (os_unlockpt os)
    (os_getgrnam os) (os_getuid os) (os_getppid os) (os_chown os) (os_chmod
    os) (os_chdir os) (os_setsid os) v (os_ioctl os) (os_dup2 os) (os_readdir
    os) (os_execvp os) (os_strerror os).
Definition with_ioctl (v : Z → ioctl_req → sysret) (os : OS) : OS :=
  mkOS (defined_TIOCSCTTY os) (defined_sun os) (defined_APPLE os) (ulong_bits
    os) (os_open os) (os_ptsname os) (os_grantpt os) (os_unlockpt os)
    (os_getgrnam os) (os_getuid os) (os_getppid os) (os_chown os) (os_chmod
    os) (os_chdir os) (os_setsid os) (os_fork os) v (os_dup2 os) (os_readdir
    os) (os_execvp os) (os_strerror os).
Definition with_dup2 (v : Z → Z → sysret) (os : OS) : OS :=
  mkOS (defined_TIOCSCTTY os) (defined_sun os) (defined_APPLE os) (ulong_bits
    os) (os_open os) (os_ptsname os) (os_grantpt os) (os_unlockpt os)
    (os_getgrnam os) (os_getuid os) (os_getppid os) (os_chown os) (os_chmod
    os) (os_chdir os) (os_setsid os) (os_fork os) (os_ioctl os) v (os_readdir
    os) (os_execvp os) (os_strerror os).
Definition with_readdir (v : string → list string) (os : OS) : OS :=
  mkOS (defined_TIOCSCTTY os) (defined_sun os) (defined_APPLE os) (ulong_bits
    os) (os_open os) (os_ptsname os) (os_grantpt os) (os_unlockpt os)
    (os_getgrnam os) (os_getuid os) (os_getppid os) (os_chown os) (os_chmod
    os) (os_chdir os) (os_setsid os) (os_fork os) (os_ioctl os) (os_dup2 os) v
    (os_execvp os) (os_strerror os).
Definition with_execvp (v : string → list string → sysret) (os : OS) : OS :=
  mkOS (defined_TIOCSCTTY os) (defined_sun os) (defined_APPLE os) (ulong_bits
    os) (os_open os) (os_ptsname os) (os_grantpt os) (os_unlockpt os)
    (os_getgrnam os) (os_getuid os) (os_getppid os) (os_chown os) (os_chmod
    os) (os_chdir os) (os_setsid os) (os_fork os) (os_ioctl os) (os_dup2 os)
    (os_readdir os) v (os_strerror os).

(** The multiplexer opens and nothing else does. *)
Definition opens_multiplexer (path : string) : sysret :=
  if String.eqb path "/dev/ptmx" then Ok else Fail EIO.

(** The calls of a trace that are opens. *)
Definition is_open_call (e : Event) : bool :=
  match e with EvOpen _ _ _ => true | _ => false end.

(** The calls made from [w] to [w']. *)
Definition calls_since (w w' : World) : list Event :=
  drop (length (trace w)) (trace w').

(** The process after a call that answers 0 or -1. *)
Definition after_answer (e : Event) (r : sysret) (w : World) : World :=
  match r with
  | Ok => log e w
  | Fail err => set_errno err (log e w)
  end.

(** The group [openSlaveAndCloseMaster] gives the slave to. *)
Definition tty_gid (os : OS) : Z :=
  match os_getgrnam os "tty" with
  | Some gr_gid => gr_gid
  | None => gid_t_minus_1
  end.

(** The calls [openSlaveAndCloseMaster] makes before it opens the slave. *)
Definition chown_chmod_calls (os : OS) (name : string) : list Event :=
  [EvGetgrnam "tty"; EvChown name (os_getuid os) (tty_gid os); EvChmod name 400].

(** The process after these calls. *)
Definition after_chown_chmod (os : OS) (w : World) : World :=
  after_answer (EvChmod (ptyName w) 400) (os_chmod os (ptyName w) 400)
    (after_answer (EvChown (ptyName w) (os_getuid os) (tty_gid os))
       (os_chown os (ptyName w) (os_getuid os) (tty_gid os))
       (log (EvGetgrnam "tty") w)).

(** The text of the exception for a slave that does not open. *)
Definition open_slave_failed (os : OS) (name : string) (err : Z) : string :=
  ("open(" +:+ name +:+ ", O_RDWR | O_NOCTTY) failed") +:+ os_strerror os err.

(** The call of the first step of the child, when a directory is asked for. *)
Definition chdir_calls (workingDirectory : option string) : list Event :=
  match workingDirectory with
  | Some dir => [EvChdir dir]
  | None => []
  end.

Definition chdir_succeeds (os : OS) (workingDirectory : option string) : bool :=
  match workingDirectory with
  | Some dir => bool_decide (os_chdir os dir = Ok)
  | None => true
  end.

(** What is written on the stream opened over the slave (the side channel),
    and what is written on standard error. *)
Definition is_side_channel_write (e : Event) : bool :=
  match e with EvFprintf _ _ => true | _ => false end.

Definition is_cerr_write (e : Event) : bool :=
  match e with EvCerr _ => true | _ => false end.

(** Every open succeeds. *)
Definition opens_all (path : string) : sysret := Ok.

(** The child after [fork], with the master the parent allocated through the
    multiplexer. *)
Definition child_process : World :=
  mkWorld "/dev/pts/3" 3 0 {[0; 1; 2; 3]} {["TERM" := "xterm"]} [].

Definition ENOTTY : Z := 25.

(** The number [closeUnusedFiles] reads in a name of the enumeration. *)
Definition entry_fd (os : OS) (name : string) : Z := to_int (strtoul os name).

(** The descriptors [closeUnusedFiles] closes, in the order it closes them. *)
Definition closed_fds (os : OS) : list Z :=
  List.filter (Z.ltb 2) (map (entry_fd os) (os_readdir os (fdDirectory os))).

(** The enumeration lists every descriptor that is open. *)
Definition lists_open_descriptors (os : OS) (w : World) : bool :=
  bool_decide (fds w ⊆ list_to_set (map (entry_fd os) (os_readdir os (fdDirectory os)))).

(** The process after the closes of pass 2. *)
Definition after_closes (w : World) (l : list Z) : World :=
  foldl (λ w fd, log (EvClose fd) (set_fds (fds w ∖ {[fd]}) w)) w l.

(** A child that rebinds a slave opened as descriptor 4, with a socket of the
    parent as descriptor 7; the enumeration has the two directory entries,
    the descriptors, its own descriptor 5 and a name that is no number. *)
Definition listing : list string :=
  ["."; ".."; "0"; "1"; "2"; "4"; "5"; "7"; "lock"].

Definition child_with_socket : World :=
  mkWorld "/dev/pts/3" 3 0 {[0; 1; 2; 4; 7]} {["TERM" := "xterm"]} [].

(** A child started from a terminal of the launching environment. *)
Definition launched_environ : gmap string string :=
  {[ "TERM" := "xterm-256color"; "WINDOWID" := "8388614";
     "COLORTERM" := "truecolor"; "TERM_PROGRAM" := "Apple_Terminal";
     "TERM_PROGRAM_VERSION" := "433"; "APP_ICON_4711" := "Terminator.icns";
     "HOME" := "/home/user" ]}.

Definition launched_child : World :=
  mkWorld "/dev/pts/3" 3 0 {[0; 1; 2]} launched_environ [].

(** ** The calls of the child *)

(** The process is the same but for [errno], the environment and the trace. *)
Definition same_process (w w' : World) : Prop :=
  ptyName w' = ptyName w ∧ masterFd w' = masterFd w ∧ fds w' = fds w.

(** What the trace holds after the calls of a step that throws [e]: nothing
    when the failed call is the last call made, the failed open of the slave,
    or the line a [child_exception_via_pipe] prints on the slave. *)
Inductive failure_tail (e : exn) : list Event → Prop :=
  | tail_none :
      exn_class e ≠ child_exception_via_pipe → failure_tail e []
  | tail_open (path : string) (flags : list oflag) :
      exn_class e = unix_exception →
      failure_tail e [EvOpen path flags (-1)]
  | tail_pipe (fd : Z) :
      exn_class e = child_exception_via_pipe →
      failure_tail e [EvFprintf fd (what e +:+ newline)].

(** [runs may_replace m w calls Q]: from [w], [m] makes the calls [calls] in
    this order and returns a value and a process that satisfy [Q], or it
    makes the first calls of [calls] and throws; it replaces the program only
    if [may_replace], after all the calls; it does not call [exit]. *)
Definition runs {A} (may_replace : bool) (m : M A) (w : World)
    (calls : list Event) (Q : A → World → Prop) : Prop :=
  ∃ r w', m w = (r, w') ∧
    match r with
    | Ret a => trace w' = trace w ++ calls ∧ Q a w'
    | Replaced => may_replace = true ∧ trace w' = trace w ++ calls
    | Throw e =>
        ∃ n tail, trace w' = trace w ++ take n calls ++ tail ∧ failure_tail e tail
    | Exited _ => False
    end.

Definition rebind_calls (childFd slot : Z) : list Event :=
  if childFd =? slot then [] else [EvDup2 childFd slot].

Definition environment_calls (os : OS) : list Event :=
  EvPutenv "TERM=terminator" :: EvUnsetenv "WINDOWID" ::
  (if defined_APPLE os then
     [EvUnsetenv ("APP_ICON_" +:+ toString (os_getppid os));
      EvUnsetenv ("APP_NAME_" +:+ toString (os_getppid os));
      EvUnsetenv ("JAVA_MAIN_CLASS_" +:+ toString (os_getppid os));
      EvUnsetenv "TERM_PROGRAM"; EvUnsetenv "TERM_PROGRAM_VERSION"]
   else [EvUnsetenv "COLORTERM"]).

(** The calls of a child whose bootstrap succeeds, step by step:
    working directory, session, slave and master, controlling terminal,
    standard descriptors, other descriptors, environment, signals, program. *)
Definition bootstrap_calls (os : OS) (w : World) (cmd : list string)
    (workingDirectory : option string) : list Event :=
  let childFd := lowest_free (fds w) in
  chdir_calls workingDirectory
  ++ [EvSetsid]
  ++ (chown_chmod_calls os (ptyName w)
      ++ [EvOpen (ptyName w) [O_RDWR; O_NOCTTY] childFd; EvClose (masterFd w)])
  ++ (if defined_TIOCSCTTY os then [EvIoctl childFd TIOCSCTTY] else [])
  ++ (if defined_sun os
      then [EvIoctl childFd (I_PUSH "ptem"); EvIoctl childFd (I_PUSH "ldterm");
            EvIoctl childFd (I_PUSH "ttcompat")]
      else [])
  ++ rebind_calls childFd STDIN_FILENO
  ++ rebind_calls childFd STDOUT_FILENO
  ++ rebind_calls childFd STDERR_FILENO
  ++ (if STDERR_FILENO <? childFd then [EvClose childFd] else [])
  ++ (EvReaddir (fdDirectory os) :: map EvClose (closed_fds os))
  ++ environment_calls os
  ++ [EvSignalDfl SIGINT]
  ++ [EvSignalDfl SIGQUIT]
  ++ [EvSignalDfl SIGCHLD]
  ++ [EvExecvp (hd "" cmd) cmd].

(** ** A bootstrap that succeeds *)

(** The environment [fixEnvironment] leaves. *)
Definition fixed_environ (os : OS) (env : gmap string string) : gmap string string :=
  let env := delete "WINDOWID" (<["TERM" := "terminator"]> env) in
  if defined_APPLE os then
    delete "TERM_PROGRAM_VERSION"
      (delete "TERM_PROGRAM"
         (delete ("JAVA_MAIN_CLASS_" +:+ toString (os_getppid os))
            (delete ("APP_NAME_" +:+ toString (os_getppid os))
               (delete ("APP_ICON_" +:+ toString (os_getppid os)) env))))
  else delete "COLORTERM" env.

Definition is_ok (r : sysret) : bool :=
  match r with Ok => true | Fail _ => false end.

(** Every call whose answer [runChild] checks before [execvp] succeeds:
    [chdir] when a directory is asked for, [setsid], the open of the slave,
    the [ioctl] where [TIOCSCTTY] is defined, and [dup2] onto the slots that
    are not the slave itself. *)
Definition steps_succeed (os : OS) (w : World)
    (workingDirectory : option string) : bool :=
  let childFd := lowest_free (fds w) in
  chdir_succeeds os workingDirectory
  && is_ok (os_setsid os)
  && is_ok (os_open os (ptyName w))
  && (negb (defined_TIOCSCTTY os) || is_ok (os_ioctl os childFd TIOCSCTTY))
  && ((childFd =? STDIN_FILENO) || is_ok (os_dup2 os childFd STDIN_FILENO))
  && ((childFd =? STDOUT_FILENO) || is_ok (os_dup2 os childFd STDOUT_FILENO))
  && ((childFd =? STDERR_FILENO) || is_ok (os_dup2 os childFd STDERR_FILENO)).

(** These calls and [execvp] succeed. *)
Definition bootstrap_succeeds (os : OS) (w : World) (cmd : list string)
    (workingDirectory : option string) : bool :=
  steps_succeed os w workingDirectory && is_ok (os_execvp os (hd "" cmd) cmd).

(** No number of the table of descriptors is negative. *)
Definition descriptors_valid (w : World) : bool :=
  forallb (Z.leb 0) (elements (fds w)).

(** [m] returns from [w], with a value and a process that satisfy [Q]. *)
Definition rets {A} (m : M A) (w : World) (Q : A → World → Prop) : Prop :=
  ∃ a w1, m w = (Ret a, w1) ∧ Q a w1.

(** The process [w] is reached from [w0] by the calls [calls], and these are
    its pseudo-terminal name, its open descriptors and its environment. *)
Definition reached (w0 : World) (calls : list Event) (name : string)
    (open : gset Z) (env : gmap string string) (w : World) : Prop :=
  trace w = trace w0 ++ calls ∧ ptyName w = name ∧ fds w = open ∧ environ w = env.

(** The last statements of [runChild]: [execvp], and the exception thrown
    when it returns. *)
Definition exec_or_throw (os : OS) (cmd : list string) : M unit :=
  let cmd0 := hd "" cmd in
  let* _ := sys_execvp os cmd0 cmd in
  let* ex := new_unix_exception os unix_exception
               ("Can't execute '" +:+ cmd0 +:+ "'") in
  throw ex.

(** The descriptors left by the steps of [runChild] on descriptors, before
    [closeUnusedFiles]: the slave is opened as [childFd], the master is
    closed, the slave is duplicated onto 0, 1 and 2, and closed when it is
    above 2. *)
Definition rebound (childFd slot : Z) (open : gset Z) : gset Z :=
  if childFd =? slot then open else {[slot]} ∪ open.

Definition slave_on_standard (w : World) : gset Z :=
  let childFd := lowest_free (fds w) in
  let open1 := ({[childFd]} ∪ fds w) ∖ {[masterFd w]} in
  let open4 := rebound childFd STDERR_FILENO
                 (rebound childFd STDOUT_FILENO
                    (rebound childFd STDIN_FILENO open1)) in
  if STDERR_FILENO <? childFd then open4 ∖ {[childFd]} else open4.

Definition with_setsid (v : sysret) (os : OS) : OS :=
  mkOS (defined_TIOCSCTTY os) (defined_sun os) (defined_APPLE os) (ulong_bits
    os) (os_open os) (os_ptsname os) (os_grantpt os) (os_unlockpt os)
    (os_getgrnam os) (os_getuid os) (os_getppid os) (os_chown os) (os_chmod
    os) (os_chdir os) v (os_fork os) (os_ioctl os) (os_dup2 os)
    (os_readdir os) (os_execvp os) (os_strerror os).

Definition EPERM : Z := 1.

(** The variables [fixEnvironment] sets or unsets. *)
Definition fixed_names (os : OS) : list string :=
  "TERM" :: "WINDOWID" ::
  (if defined_APPLE os then
     ["APP_ICON_" +:+ toString (os_getppid os);
      "APP_NAME_" +:+ toString (os_getppid os);
      "JAVA_MAIN_CLASS_" +:+ toString (os_getppid os);
      "TERM_PROGRAM"; "TERM_PROGRAM_VERSION"]
   else ["COLORTERM"]).

(** A child whose master was closed by a first [openSlaveAndCloseMaster]:
    the number stored in [masterFd] is free again. *)
Definition child_after_first_open : World :=
  mkWorld "/dev/pts/3" 3 0 {[0; 1; 2; 4]} {["TERM" := "xterm"]} [].

(** The first statements of [runChild], up to the open of the slave, before
    the statements [k] that follow them. *)
Definition until_slave {B} (os : OS) (workingDirectory : option string)
    (k : Z → M B) : M B :=
  let* _ :=
    match workingDirectory with
    | Some dir =>
        let* r := sys_chdir os dir in
        if r <? 0 then
          let* ex := new_child_exception os child_exception
                       ("chdir(" +:+ String (ascii_of_nat 34) "" +:+ dir
                        +:+ String (ascii_of_nat 34) "" +:+ ")") in
          throw ex
        else ret tt
    | None => ret tt
    end in
  let* r := sys_setsid os in
  let* _ :=
    if r <? 0 then
      let* ex := new_child_exception os child_exception "setsid()" in throw ex
    else ret tt in
  let* childFd := openSlaveAndCloseMaster os in
  k childFd.

(** The calls of a child up to the close of the master. *)
Definition slave_calls (os : OS) (w : World)
    (workingDirectory : option string) : list Event :=
  chdir_calls workingDirectory
  ++ [EvSetsid]
  ++ chown_chmod_calls os (ptyName w)
  ++ [EvOpen (ptyName w) [O_RDWR; O_NOCTTY] (lowest_free (fds w));
      EvClose (masterFd w)].

(** The text of a [child_exception] or [child_exception_via_pipe] built from
    [message] after a call that failed with [err]. *)
Definition error_from_child (os : OS) (message : string) (err : Z) : string :=
  ("Error from child: " +:+ message) +:+ os_strerror os err.

(** The statements of [runChild] on the terminal of the slave [childFd],
    before the statements [k] that follow them. *)
Definition terminal_steps {B} (os : OS) (childFd : Z) (k : M B) : M B :=
  let* _ :=
    if defined_TIOCSCTTY os then
      let* r := sys_ioctl os childFd TIOCSCTTY in
      if r <? 0 then
        let* ex := new_child_exception_via_pipe os childFd
                     ("ioctl(" +:+ toString childFd +:+ ", TIOCSCTTY, 0)") in
        throw ex
      else ret tt
    else ret tt in
  let* _ :=
    if defined_sun os then
      let* _ := sys_ioctl os childFd (I_PUSH "ptem") in
      let* _ := sys_ioctl os childFd (I_PUSH "ldterm") in
      let* _ := sys_ioctl os childFd (I_PUSH "ttcompat") in
      ret tt
    else ret tt in
  k.

(** The calls of these statements. *)
Definition terminal_calls (os : OS) (childFd : Z) : list Event :=
  (if defined_TIOCSCTTY os then [EvIoctl childFd TIOCSCTTY] else [])
  ++ (if defined_sun os
      then [EvIoctl childFd (I_PUSH "ptem"); EvIoctl childFd (I_PUSH "ldterm");
            EvIoctl childFd (I_PUSH "ttcompat")]
      else []).

Definition EMFILE : Z := 24.

(** * Properties *)

(** ** Descriptors *)

Lemma lowest_free_from_spec (fuel : nat) (s : gset Z) (n : Z) :
  (size (filter (λ x, (n ≤ x)%Z) s) ≤ fuel)%nat →
  (lowest_free_from fuel s n ∉ s) ∧ (n ≤ lowest_free_from fuel s n).
Proof.
  revert n. induction fuel as [|fuel IH]; intros n Hsize; simpl.
  - split; [|lia]. intros Hin.
    assert (Hempty : filter (λ x, (n ≤ x)%Z) s ≡ ∅).
    { apply size_empty_inv. lia. }
    apply (not_elem_of_empty (C := gset Z) n). rewrite <- Hempty.
    apply elem_of_filter. split; [lia|done].
  - destruct (decide (n ∈ s)) as [Hin|Hout]; [|split; [done|lia]].
    destruct (IH (n + 1)) as [Hfree Hle]; [|split; [done|lia]].
    assert (Hlt : (size (filter (λ x, (n + 1 ≤ x)%Z) s) < size (filter (λ x, (n ≤ x)%Z) s))%nat).
    { apply subset_size. split.
      - intros x Hx. apply elem_of_filter in Hx as [Hx1 Hx2].
        apply elem_of_filter. split; [lia|done].
      - intros Hsub.
        assert (Hn : n ∈ filter (λ x, (n + 1 ≤ x)%Z) s).
        { apply Hsub, elem_of_filter. split; [lia|done]. }
        apply elem_of_filter in Hn as [Hn _]. lia. }
    lia.
Qed.

(** [open] hands out a descriptor that was not open. *)
Lemma lowest_free_not_in (s : gset Z) : lowest_free s ∉ s.
Proof.
  apply lowest_free_from_spec.
  apply subseteq_size. intros x Hx. by apply elem_of_filter in Hx as [_ Hx].
Qed.

Lemma lowest_free_nonneg (s : gset Z) : 0 ≤ lowest_free s.
Proof.
  apply lowest_free_from_spec.
  apply subseteq_size. intros x Hx. by apply elem_of_filter in Hx as [_ Hx].
Qed.

(** ** The legacy scan *)

Section Scan.
Variable os : OS.

Lemma inner_loop_scan (c1 : ascii) (l2 : list ascii) (k : M Z) (w : World) :
  bind (inner_loop os c1 l2)
       (λ r, match r with Some fdm => ret fdm | None => k end) w
  = scan_then os (map (pair c1) l2) k w.
Proof.
  revert w. induction l2 as [|c2 l2 IH]; intros w; [done|].
  simpl. unfold bind at 1 2 3. simpl.
  destruct (try_candidate os c1 c2 w) as [[[fdm|]|e| |st] w1];
    first [done | apply IH].
Qed.

Lemma scan_then_app (a b : list (ascii * ascii)) (k : M Z) (w : World) :
  scan_then os (a ++ b) k w = scan_then os a (scan_then os b k) w.
Proof.
  revert w. induction a as [|c a IH]; intros w; [done|].
  simpl. unfold bind.
  destruct (try_candidate os c.1 c.2 w) as [[[fdm|]|e| |st] w1];
    first [done | apply IH].
Qed.

Lemma scan_then_ext (cs : list (ascii * ascii)) (k k' : M Z) :
  (∀ w, k w = k' w) → ∀ w, scan_then os cs k w = scan_then os cs k' w.
Proof.
  intros Hk. induction cs as [|c cs IH]; intros w; [apply Hk|].
  simpl. unfold bind.
  destruct (try_candidate os c.1 c.2 w) as [[[fdm|]|e| |st] w1];
    first [done | apply IH].
Qed.

Lemma outer_loop_scan (l1 : list ascii) (w : World) :
  outer_loop os l1 w
  = scan_then os (flat_map (λ c1, map (pair c1) ptr2_chars) l1) (throw out_of_ptys) w.
Proof.
  revert w. induction l1 as [|c1 l1 IH]; intros w; [done|].
  cbn [outer_loop flat_map]. rewrite scan_then_app, inner_loop_scan.
  apply scan_then_ext, IH.
Qed.

Lemma search_for_pty_scan (w : World) :
  search_for_pty os w = scan_then os candidates (throw out_of_ptys) w.
Proof. apply outer_loop_scan. Qed.

(** The three ways one turn of the loop body ends. *)
Lemma try_candidate_busy (c : ascii * ascii) (w : World) :
  busy os c = true →
  try_candidate os c.1 c.2 w = (Ret None, after_failed_open os w c).
Proof.
  unfold busy, after_failed_open, try_candidate, bind, modify, gets, sys_open.
  simpl. fold (master_path c).
  destruct (os_open os (master_path c)) as [|err]; [done|]. simpl.
  intros Hne. destruct (err =? ENOENT); done.
Qed.

Lemma try_candidate_ENOENT (c : ascii * ascii) (w : World) :
  os_open os (master_path c) = Fail ENOENT →
  try_candidate os c.1 c.2 w = (Throw out_of_ptys, after_failed_open os w c).
Proof.
  unfold after_failed_open, try_candidate, bind, modify, gets, sys_open.
  simpl. fold (master_path c). by intros ->.
Qed.

Lemma try_candidate_Ok (c : ascii * ascii) (w : World) :
  os_open os (master_path c) = Ok →
  try_candidate os c.1 c.2 w =
    (Ret (Some (lowest_free (fds w))),
     set_ptyName (slave_path c)
       (log (EvOpen (master_path c) [O_RDWR] (lowest_free (fds w)))
          (set_fds ({[lowest_free (fds w)]} ∪ fds w)
             (set_ptyName (master_path c) w)))).
Proof.
  unfold try_candidate, bind, modify, gets, sys_open.
  simpl. fold (master_path c). intros ->. simpl.
  pose proof (lowest_free_nonneg (fds w)) as Hge.
  destruct (lowest_free (fds w) <? 0) eqn:Hlt; [lia|done].
Qed.

(** The scan passes over the candidates that are busy. *)
Lemma scan_then_busy (pre rest : list (ascii * ascii)) (k : M Z) (w : World) :
  forallb (busy os) pre = true →
  scan_then os (pre ++ rest) k w
  = scan_then os rest k (foldl (after_failed_open os) w pre).
Proof.
  revert w. induction pre as [|c pre IH]; intros w Hbusy; [done|].
  simpl in Hbusy. apply andb_prop in Hbusy as [Hc Hpre].
  cbn [app scan_then foldl]. unfold bind. rewrite try_candidate_busy by done.
  by apply IH.
Qed.

Lemma after_busy_trace (pre : list (ascii * ascii)) (w : World) :
  forallb (busy os) pre = true →
  trace (foldl (after_failed_open os) w pre) = trace w ++ map failed_open pre.
Proof.
  revert w. induction pre as [|c pre IH]; intros w Hbusy.
  - simpl. by rewrite app_nil_r.
  - simpl in Hbusy. apply andb_prop in Hbusy as [Hc Hpre].
    cbn [foldl map]. rewrite IH by done.
    unfold busy in Hc. unfold after_failed_open.
    destruct (os_open os (master_path c)); [done|].
    simpl. by rewrite <- app_assoc.
Qed.

Lemma after_failed_open_fds (w : World) (c : ascii * ascii) :
  fds (after_failed_open os w c) = fds w
  ∧ masterFd (after_failed_open os w c) = masterFd w
  ∧ environ (after_failed_open os w c) = environ w.
Proof. unfold after_failed_open. by destruct (os_open os (master_path c)). Qed.

Lemma after_busy_fds (pre : list (ascii * ascii)) (w : World) :
  fds (foldl (after_failed_open os) w pre) = fds w
  ∧ masterFd (foldl (after_failed_open os) w pre) = masterFd w
  ∧ environ (foldl (after_failed_open os) w pre) = environ w.
Proof.
  revert w. induction pre as [|c pre IH]; intros w; [done|].
  cbn [foldl]. destruct (IH (after_failed_open os w c)) as (-> & -> & ->).
  apply after_failed_open_fds.
Qed.

(** Whatever the scan of a candidate does, its first call is the open of
    that candidate's master. *)
Lemma scan_then_trace (cs : list (ascii * ascii)) (w : World) :
  ∃ rest, trace (scan_then os cs (throw out_of_ptys) w).2 = trace w ++ rest.
Proof.
  revert w. induction cs as [|c cs IH]; intros w.
  - exists []. simpl. by rewrite app_nil_r.
  - cbn [scan_then]. unfold bind.
    destruct (os_open os (master_path c)) as [|err] eqn:Hopen.
    + rewrite try_candidate_Ok by done. simpl. eauto.
    + destruct (decide (err = ENOENT)) as [->|Hne].
      * rewrite try_candidate_ENOENT by done. simpl.
        unfold after_failed_open. rewrite Hopen. simpl. eauto.
      * assert (Hbusy : busy os c = true).
        { unfold busy. rewrite Hopen. apply negb_true_iff, Z.eqb_neq, Hne. }
        rewrite try_candidate_busy by done.
        destruct (IH (after_failed_open os w c)) as [rest ->].
        unfold after_failed_open. rewrite Hopen. simpl.
        rewrite <- app_assoc. eauto.
Qed.

Lemma scan_then_first_call (c : ascii * ascii) (cs : list (ascii * ascii)) (w : World) :
  ∃ r rest, trace (scan_then os (c :: cs) (throw out_of_ptys) w).2
            = trace w ++ EvOpen (master_path c) [O_RDWR] r :: rest.
Proof.
  cbn [scan_then]. unfold bind.
  destruct (os_open os (master_path c)) as [|err] eqn:Hopen.
  - rewrite try_candidate_Ok by done. simpl. eauto.
  - destruct (decide (err = ENOENT)) as [->|Hne].
    + rewrite try_candidate_ENOENT by done. simpl.
      unfold after_failed_open. rewrite Hopen. simpl. eauto.
    + assert (Hbusy : busy os c = true).
      { unfold busy. rewrite Hopen. apply negb_true_iff, Z.eqb_neq, Hne. }
      rewrite try_candidate_busy by done.
      destruct (scan_then_trace cs (after_failed_open os w c)) as [rest ->].
      unfold after_failed_open. rewrite Hopen. simpl.
      rewrite <- app_assoc. simpl. eauto.
Qed.
End Scan.

(** The scan at a candidate [c] whose open fails, the candidates [pre] before
    it having been passed over: with [ENOENT] the scan throws at once, with
    another error its next call is the open of the next candidate. *)
Lemma search_for_pty_stops_or_skips
    (os : OS) (w : World) (pre : list (ascii * ascii)) (c : ascii * ascii)
    (post : list (ascii * ascii)) (err : Z) :
  candidates = pre ++ c :: post →
  forallb (busy os) pre = true →
  os_open os (master_path c) = Fail err →
  ∃ r w', search_for_pty os w = (r, w') ∧
    if err =? ENOENT then
      r = Throw out_of_ptys ∧
      trace w' = trace w ++ map failed_open (pre ++ [c])
    else
      match post with
      | [] =>
          r = Throw out_of_ptys ∧
          trace w' = trace w ++ map failed_open (pre ++ [c])
      | next :: _ =>
          ∃ fdm rest,
            trace w' = trace w ++ map failed_open (pre ++ [c])
                         ++ EvOpen (master_path next) [O_RDWR] fdm :: rest
      end.
Proof.
  intros Hsplit Hbusy Hopen.
  rewrite search_for_pty_scan, Hsplit, scan_then_busy by done.
  pose proof (after_busy_trace os pre w Hbusy) as Htrace.
  set (w1 := foldl (after_failed_open os) w pre) in *.
  assert (Hw2 : trace (after_failed_open os w1 c)
                = trace w ++ map failed_open (pre ++ [c])).
  { unfold after_failed_open. rewrite Hopen. simpl.
    by rewrite Htrace, map_app, <- app_assoc. }
  destruct (err =? ENOENT) eqn:Herr.
  - apply Z.eqb_eq in Herr as ->.
    cbn [scan_then]. unfold bind. rewrite try_candidate_ENOENT by done.
    eauto.
  - assert (Hc : busy os c = true).
    { unfold busy. by rewrite Hopen, Herr. }
    destruct post as [|next post].
    + cbn [scan_then]. unfold bind. rewrite try_candidate_busy by done.
      simpl. eauto.
    + change (c :: next :: post) with ([c] ++ next :: post).
      rewrite scan_then_busy by (simpl; by rewrite Hc).
      cbn [foldl].
      destruct (scan_then_first_call os next post (after_failed_open os w1 c))
        as (fdm & rest & Hfirst).
      destruct (scan_then os (next :: post) (throw out_of_ptys)
                  (after_failed_open os w1 c)) as [r w'].
      exists r, w'. split; [done|]. exists fdm, rest.
      simpl in Hfirst. by rewrite Hfirst, Hw2, <- app_assoc.
Qed.

(** The scan at the first candidate whose master opens, or at the end of the
    candidates. *)
Lemma search_for_pty_first_open
    (os : OS) (w : World) (pre post : list (ascii * ascii)) :
  candidates = pre ++ post →
  forallb (busy os) pre = true →
  head_opens os post = true →
  length candidates = 256%nat ∧
  NoDup candidates ∧
  ∃ w',
    match post with
    | [] =>
        search_for_pty os w = (Throw out_of_ptys, w') ∧
        trace w' = trace w ++ map failed_open candidates ∧
        fds w' = fds w
    | c :: _ =>
        let fdm := lowest_free (fds w) in
        search_for_pty os w = (Ret fdm, w') ∧
        master_path c = "/dev/pty" +:+ String c.1 (String c.2 "") ∧
        ptyName w' = "/dev/tty" +:+ String c.1 (String c.2 "") ∧
        trace w' = trace w ++ map failed_open pre
                     ++ [EvOpen (master_path c) [O_RDWR] fdm] ∧
        fds w' = {[fdm]} ∪ fds w ∧
        fdm ∉ fds w
    end.
Proof.
  intros Hsplit Hbusy Hhead.
  split; [reflexivity|].
  split; [apply (bool_decide_unpack (NoDup candidates)); vm_compute; exact I|].
  rewrite search_for_pty_scan, Hsplit, scan_then_busy by done.
  pose proof (after_busy_trace os pre w Hbusy) as Htrace.
  destruct (after_busy_fds os pre w) as (Hfds & _ & _).
  set (w1 := foldl (after_failed_open os) w pre) in *.
  destruct post as [|c post]; simpl in Hhead.
  - rewrite app_nil_r in *. eexists. split; [reflexivity|]. by split.
  - apply bool_decide_eq_true in Hhead.
    cbn [scan_then]. unfold bind. rewrite try_candidate_Ok by done.
    rewrite Hfds. eexists. cbn zeta. split; [reflexivity|].
    split; [done|]. split; [done|]. cbn [set_ptyName trace fds log set_fds].
    rewrite Htrace, <- app_assoc.
    split; [done|]. split; [done|]. apply lowest_free_not_in.
Qed.

(** ** [ptym_open] and [openMaster] *)

Section Allocate.
Variable os : OS.

(** The scan returns the one descriptor it opened, or throws and leaves the
    table of descriptors as it found it. *)
Lemma scan_then_outcome (cs : list (ascii * ascii)) (w : World) :
  ∃ r w', scan_then os cs (throw out_of_ptys) w = (r, w') ∧
    masterFd w' = masterFd w ∧
    match r with
    | Ret fdm => fdm = lowest_free (fds w) ∧ fds w' = {[fdm]} ∪ fds w
    | Throw e => e = out_of_ptys ∧ fds w' = fds w
    | _ => False
    end.
Proof.
  revert w. induction cs as [|c cs IH]; intros w.
  - simpl. unfold throw. eauto 10.
  - cbn [scan_then]. unfold bind.
    destruct (os_open os (master_path c)) as [|err] eqn:Hopen.
    + rewrite try_candidate_Ok by done. unfold ret. eauto 10.
    + destruct (after_failed_open_fds os w c) as (Hfds & Hm & _).
      destruct (decide (err = ENOENT)) as [->|Hne].
      * rewrite try_candidate_ENOENT by done. eauto 10.
      * assert (Hbusy : busy os c = true).
        { unfold busy. rewrite Hopen. apply negb_true_iff, Z.eqb_neq, Hne. }
        rewrite try_candidate_busy by done.
        destruct (IH (after_failed_open os w c)) as (r & w' & -> & Hm' & Hr).
        exists r, w'. rewrite Hfds, Hm in *. done.
Qed.

Lemma ptym_open_fallback (w : World) (err : Z) :
  os_open os "/dev/ptmx" = Fail err →
  ptym_open os w
  = search_for_pty os (set_errno err (log (EvOpen "/dev/ptmx" [O_RDWR] (-1)) w)).
Proof. unfold ptym_open, bind, sys_open. by intros ->. Qed.

(** The primary path, call by call. *)
Lemma ptym_open_primary (w : World) :
  os_open os "/dev/ptmx" = Ok →
  let fd := lowest_free (fds w) in
  let w1 := log (EvPtsname fd)
              (log (EvOpen "/dev/ptmx" [O_RDWR] fd) (set_fds ({[fd]} ∪ fds w) w)) in
  ptym_open os w =
    match os_ptsname os fd with
    | inr err =>
        (Throw (Exn unix_exception
                  (("ptsname(" +:+ toString fd +:+ ") failed") +:+ os_strerror os err)),
         set_errno err w1)
    | inl name =>
        let w2 := log (EvGrantpt fd) (set_ptyName name w1) in
        match os_grantpt os fd with
        | Fail err =>
            (Throw (Exn unix_exception
                      (("grantpt(" +:+ name +:+ ") failed") +:+ os_strerror os err)),
             set_errno err w2)
        | Ok =>
            let w3 := log (EvUnlockpt fd) w2 in
            match os_unlockpt os fd with
            | Fail err =>
                (Throw (Exn unix_exception
                          (("unlockpt(" +:+ name +:+ ") failed") +:+ os_strerror os err)),
                 set_errno err w3)
            | Ok => (Ret fd, w3)
            end
        end
    end.
Proof.
  intros Hopen fd w1.
  pose proof (lowest_free_nonneg (fds w)) as Hge.
  unfold ptym_open, bind, sys_open, new_unix_exception, throw. rewrite Hopen.
  fold fd. destruct (fd <? 0) eqn:Hlt; [lia|].
  unfold sys_ptsname. cbn [fst snd].
  destruct (os_ptsname os fd) as [name|err]; [|done].
  unfold modify, sys_grantpt, sys_unlockpt, answer.
  destruct (os_grantpt os fd) as [|err]; [|done].
  destruct (os_unlockpt os fd) as [|err]; done.
Qed.
End Allocate.

Lemma calls_since_app (w w' : World) (calls : list Event) :
  trace w' = trace w ++ calls → calls_since w w' = calls.
Proof. unfold calls_since. intros ->. apply drop_app_length. Qed.

(** [openMaster] where the multiplexer does not open: the legacy scan, and
    the descriptor it returns stored in [masterFd]. *)
Lemma openMaster_fallback (os : OS) (w : World) (err : Z) :
  os_open os "/dev/ptmx" = Fail err →
  openMaster os w =
    match search_for_pty os
            (set_errno err (log (EvOpen "/dev/ptmx" [O_RDWR] (-1)) w)) with
    | (Ret fdm, w') => (Ret fdm, set_masterFd fdm w')
    | (Throw e, w') => (Throw e, w')
    | (Replaced, w') => (Replaced, w')
    | (Exited status, w') => (Exited status, w')
    end.
Proof.
  intros Hopen. unfold openMaster, bind.
  rewrite (ptym_open_fallback os w err Hopen).
  by destruct (search_for_pty os _) as [[fdm|e| |status] w'].
Qed.

(** C1. In the legacy scan of [openMaster] (the multiplexer did not open), a
    candidate master whose open fails with ENOENT ends the scan at once:
    [openMaster] throws "Out of pseudo-terminal devices" and no later
    candidate is opened.  A candidate whose open fails with any other error
    is passed over: the next call is the open of the next candidate, and
    after the last candidate the same error is thrown.  [pre] are the
    candidates before [c], which the scan has passed over. *)
Theorem openMaster_scan_ENOENT_stops_other_errors_skip
    (os : OS) (w : World) (pre : list (ascii * ascii)) (c : ascii * ascii)
    (post : list (ascii * ascii)) (err_ptmx err : Z) :
  os_open os "/dev/ptmx" = Fail err_ptmx →
  candidates = pre ++ c :: post →
  forallb (busy os) pre = true →
  os_open os (master_path c) = Fail err →
  ∃ r w', openMaster os w = (r, w') ∧
    if err =? ENOENT then
      r = Throw out_of_ptys ∧
      calls_since w w'
        = EvOpen "/dev/ptmx" [O_RDWR] (-1) :: map failed_open (pre ++ [c])
    else
      match post with
      | [] =>
          r = Throw out_of_ptys ∧
          calls_since w w'
            = EvOpen "/dev/ptmx" [O_RDWR] (-1) :: map failed_open (pre ++ [c])
      | next :: _ =>
          ∃ fdm rest,
            calls_since w w'
              = EvOpen "/dev/ptmx" [O_RDWR] (-1) :: map failed_open (pre ++ [c])
                ++ EvOpen (master_path next) [O_RDWR] fdm :: rest
      end.
Proof.
  intros Hptmx Hsplit Hbusy Hopen.
  rewrite (openMaster_fallback os w err_ptmx Hptmx).
  set (w1 := set_errno err_ptmx (log (EvOpen "/dev/ptmx" [O_RDWR] (-1)) w)).
  destruct (search_for_pty_stops_or_skips os w1 pre c post err Hsplit Hbusy Hopen)
    as (r & w' & -> & Hr).
  assert (Hsince : ∀ w2 calls, trace w2 = trace w1 ++ calls →
            calls_since w w2 = EvOpen "/dev/ptmx" [O_RDWR] (-1) :: calls).
  { intros w2 calls Hw2. apply calls_since_app. rewrite Hw2. simpl.
    by rewrite <- app_assoc. }
  destruct (err =? ENOENT).
  - destruct Hr as [-> Htrace]. eexists _, _. split; [reflexivity|].
    split; [done|]. by apply Hsince.
  - destruct post as [|next post].
    + destruct Hr as [-> Htrace]. eexists _, _. split; [reflexivity|].
      split; [done|]. by apply Hsince.
    + destruct Hr as (fdm & rest & Htrace).
      destruct r as [m|e| |status]; eexists _, _; (split; [reflexivity|]);
        exists fdm, rest; by apply Hsince.
Qed.

Lemma openMaster_scan_ENOENT_stops_witness :
  (∃ r w', openMaster (system opens_second_missing) process = (r, w') ∧
     r = Throw out_of_ptys ∧
     calls_since process w'
       = EvOpen "/dev/ptmx" [O_RDWR] (-1)
         :: map failed_open ([("p", "0")] ++ [("p", "1")])%char)
  ∧
  (∃ r w', openMaster (system opens_nothing) process = (r, w') ∧
     ∃ fdm rest,
       calls_since process w'
         = EvOpen "/dev/ptmx" [O_RDWR] (-1)
           :: map failed_open ([("p", "0")] ++ [("p", "1")])%char
           ++ EvOpen "/dev/ptyp2" [O_RDWR] fdm :: rest).
Proof.
  split.
  - apply (openMaster_scan_ENOENT_stops_other_errors_skip
             (system opens_second_missing) process
             [("p", "0")]%char ("p", "1")%char (drop 2 candidates) EIO ENOENT);
      reflexivity.
  - apply (openMaster_scan_ENOENT_stops_other_errors_skip
             (system opens_nothing) process
             [("p", "0")]%char ("p", "1")%char (drop 2 candidates) EIO EIO);
      reflexivity.
Defined.

(** C6. The legacy scan of [openMaster] draws its candidates from a fixed
    name space of 16 x 16 = 256 two-character names, in a fixed order.  At
    the first candidate whose master opens (the candidates [pre] before it
    having been passed over), [openMaster] returns the descriptor of that
    master, stores it in [masterFd], and leaves in [ptyName] the slave path of
    the same two characters, [/dev/ttyXY] for [/dev/ptyXY].  When all 256
    candidates have been passed over ([post] is empty), it throws "Out of
    pseudo-terminal devices". *)
Theorem openMaster_scan_first_master_that_opens
    (os : OS) (w : World) (pre post : list (ascii * ascii)) (err_ptmx : Z) :
  os_open os "/dev/ptmx" = Fail err_ptmx →
  candidates = pre ++ post →
  forallb (busy os) pre = true →
  head_opens os post = true →
  length candidates = 256%nat ∧
  NoDup candidates ∧
  ∃ w',
    match post with
    | [] =>
        openMaster os w = (Throw out_of_ptys, w') ∧
        calls_since w w'
          = EvOpen "/dev/ptmx" [O_RDWR] (-1) :: map failed_open candidates ∧
        fds w' = fds w
    | c :: _ =>
        let fdm := lowest_free (fds w) in
        openMaster os w = (Ret fdm, w') ∧
        master_path c = "/dev/pty" +:+ String c.1 (String c.2 "") ∧
        ptyName w' = "/dev/tty" +:+ String c.1 (String c.2 "") ∧
        masterFd w' = fdm ∧
        calls_since w w'
          = EvOpen "/dev/ptmx" [O_RDWR] (-1) :: map failed_open pre
            ++ [EvOpen (master_path c) [O_RDWR] fdm] ∧
        fds w' = {[fdm]} ∪ fds w ∧
        fdm ∉ fds w
    end.
Proof.
  intros Hptmx Hsplit Hbusy Hhead.
  rewrite (openMaster_fallback os w err_ptmx Hptmx).
  set (w1 := set_errno err_ptmx (log (EvOpen "/dev/ptmx" [O_RDWR] (-1)) w)).
  destruct (search_for_pty_first_open os w1 pre post Hsplit Hbusy Hhead)
    as (Hlen & Hnodup & w' & Hscan).
  split; [done|]. split; [done|].
  assert (Hsince : ∀ w2 calls, trace w2 = trace w1 ++ calls →
            calls_since w w2 = EvOpen "/dev/ptmx" [O_RDWR] (-1) :: calls).
  { intros w2 calls Hw2. apply calls_since_app. rewrite Hw2. simpl.
    by rewrite <- app_assoc. }
  destruct post as [|c post].
  - destruct Hscan as (-> & Htrace & Hfds). exists w'.
    split; [done|]. split; [by apply Hsince|done].
  - cbn zeta in Hscan. destruct Hscan as (-> & Hmaster & Hslave & Htrace & Hfds & Hfree).
    exists (set_masterFd (lowest_free (fds w)) w'). cbn zeta.
    split; [done|]. split; [done|]. split; [done|]. split; [done|].
    split; [by apply Hsince|done].
Qed.

Lemma openMaster_scan_first_master_that_opens_witness :
  (length candidates = 256%nat ∧ NoDup candidates ∧
   ∃ w', openMaster (system opens_second_only) process = (Ret 3, w') ∧
         master_path ("p", "1")%char = "/dev/ptyp1" ∧
         ptyName w' = "/dev/ttyp1" ∧
         masterFd w' = 3 ∧
         calls_since process w'
           = EvOpen "/dev/ptmx" [O_RDWR] (-1) :: map failed_open [("p", "0")%char]
             ++ [EvOpen "/dev/ptyp1" [O_RDWR] 3] ∧
         fds w' = {[3]} ∪ fds process ∧
         3 ∉ fds process)
  ∧
  (length candidates = 256%nat ∧ NoDup candidates ∧
   ∃ w', openMaster (system opens_nothing) process = (Throw out_of_ptys, w') ∧
         calls_since process w'
           = EvOpen "/dev/ptmx" [O_RDWR] (-1) :: map failed_open candidates ∧
         fds w' = fds process).
Proof.
  split.
  - apply (openMaster_scan_first_master_that_opens
             (system opens_second_only) process
             [("p", "0")%char] (drop 1 candidates) EIO); reflexivity.
  - apply (openMaster_scan_first_master_that_opens
             (system opens_nothing) process candidates [] EIO); reflexivity.
Defined.


(** [ptym_open] on its two paths: the scan when the multiplexer does not
    open, and otherwise the multiplexer as the only open it makes. *)
Lemma ptym_open_outcome (os : OS) (w : World) :
  ∃ r w', ptym_open os w = (r, w') ∧
    match os_open os "/dev/ptmx" with
    | Fail err =>
        (r, w') = search_for_pty os
                    (set_errno err (log (EvOpen "/dev/ptmx" [O_RDWR] (-1)) w)) ∧
        ∃ fdm rest,
          calls_since w w' = EvOpen "/dev/ptmx" [O_RDWR] (-1)
                             :: EvOpen "/dev/ptyp0" [O_RDWR] fdm :: rest
    | Ok =>
        let fd := lowest_free (fds w) in
        List.filter is_open_call (calls_since w w')
          = [EvOpen "/dev/ptmx" [O_RDWR] fd] ∧
        match os_ptsname os fd with
        | inr err =>
            r = Throw (Exn unix_exception
                         (("ptsname(" +:+ toString fd +:+ ") failed")
                          +:+ os_strerror os err))
        | inl name =>
            match os_grantpt os fd with
            | Fail err =>
                r = Throw (Exn unix_exception
                             (("grantpt(" +:+ name +:+ ") failed")
                              +:+ os_strerror os err))
            | Ok =>
                match os_unlockpt os fd with
                | Fail err =>
                    r = Throw (Exn unix_exception
                                 (("unlockpt(" +:+ name +:+ ") failed")
                                  +:+ os_strerror os err))
                | Ok => r = Ret fd ∧ ptyName w' = name
                end
            end
        end
    end.
Proof.
  destruct (os_open os "/dev/ptmx") as [|err] eqn:Hopen.
  - rewrite ptym_open_primary by done. cbn zeta.
    destruct (os_ptsname os _) as [name|err];
      [destruct (os_grantpt os _) as [|err];
         [destruct (os_unlockpt os _) as [|err]|]|];
      eexists _, _; (split; [reflexivity|]);
      (split; [|done]);
      erewrite calls_since_app by (simpl; rewrite <- !app_assoc; reflexivity);
      reflexivity.
  - rewrite (ptym_open_fallback os w err Hopen).
    set (w1 := set_errno err (log (EvOpen "/dev/ptmx" [O_RDWR] (-1)) w)).
    rewrite search_for_pty_scan.
    destruct (scan_then_first_call os ("p", "0")%char (drop 1 candidates) w1)
      as (fdm & rest & Hfirst).
    change (("p", "0")%char :: drop 1 candidates) with candidates in Hfirst.
    destruct (scan_then os candidates (throw out_of_ptys) w1) as [r w'].
    exists r, w'. split; [done|]. split; [done|]. exists fdm, rest.
    apply calls_since_app. simpl in Hfirst. rewrite Hfirst. simpl.
    by rewrite <- app_assoc.
Qed.

(** C5. [openMaster] runs the legacy scan only when the open of the
    multiplexer [/dev/ptmx] fails: then its outcome is that of
    [search_for_pty], whose first call is the open of the first candidate.
    When the multiplexer opens, the open of the multiplexer is the only open
    [openMaster] makes, and a failure of the slave-name lookup, of the grant
    or of the unlock is thrown as the [unix_exception] of that call
    ("ptsname(fd) failed", "grantpt(name) failed", "unlockpt(name) failed");
    otherwise the descriptor of the multiplexer is returned and stored in
    [masterFd], and [ptyName] is the slave name. *)
Theorem openMaster_scans_only_without_multiplexer (os : OS) (w : World) :
  ∃ r w', openMaster os w = (r, w') ∧
    match os_open os "/dev/ptmx" with
    | Fail err =>
        r = (search_for_pty os
               (set_errno err (log (EvOpen "/dev/ptmx" [O_RDWR] (-1)) w))).1 ∧
        ∃ fdm rest,
          calls_since w w' = EvOpen "/dev/ptmx" [O_RDWR] (-1)
                             :: EvOpen "/dev/ptyp0" [O_RDWR] fdm :: rest
    | Ok =>
        let fd := lowest_free (fds w) in
        List.filter is_open_call (calls_since w w')
          = [EvOpen "/dev/ptmx" [O_RDWR] fd] ∧
        match os_ptsname os fd with
        | inr err =>
            r = Throw (Exn unix_exception
                         (("ptsname(" +:+ toString fd +:+ ") failed")
                          +:+ os_strerror os err))
        | inl name =>
            match os_grantpt os fd with
            | Fail err =>
                r = Throw (Exn unix_exception
                             (("grantpt(" +:+ name +:+ ") failed")
                              +:+ os_strerror os err))
            | Ok =>
                match os_unlockpt os fd with
                | Fail err =>
                    r = Throw (Exn unix_exception
                                 (("unlockpt(" +:+ name +:+ ") failed")
                                  +:+ os_strerror os err))
                | Ok => r = Ret fd ∧ ptyName w' = name ∧ masterFd w' = fd
                end
            end
        end
    end.
Proof.
  destruct (ptym_open_outcome os w) as (r & w' & Hrun & Hr).
  unfold openMaster, bind. rewrite Hrun.
  destruct (os_open os "/dev/ptmx") as [|err] eqn:Hopen.
  - cbn zeta in Hr. destruct Hr as [Hopens Hr].
    destruct (os_ptsname os _) as [name|err];
      [destruct (os_grantpt os _) as [|err];
         [destruct (os_unlockpt os _) as [|err]|]|];
      try (subst r; eexists _, _; split; [reflexivity|]; by split).
    destruct Hr as [-> Hname]. eexists _, _. split; [reflexivity|].
    split; [done|]. by split.
  - destruct Hr as [Hscan Hcalls]. rewrite <- Hscan. cbn [fst].
    destruct r as [fdm|e| |status]; eexists _, _; (split; [reflexivity|]);
      by split.
Qed.

(** What [openMaster] does to the table of descriptors, on every path. *)
Lemma openMaster_outcome (os : OS) (w : World) :
  ∃ r w', openMaster os w = (r, w') ∧
    let fd := lowest_free (fds w) in
    match r with
    | Ret m => m = fd ∧ masterFd w' = fd ∧ fds w' = {[fd]} ∪ fds w ∧ fd ∉ fds w
    | Throw _ =>
        masterFd w' = masterFd w ∧
        match os_open os "/dev/ptmx" with
        | Fail _ => fds w' = fds w
        | Ok => fds w' = {[fd]} ∪ fds w ∧ fd ∉ fds w
        end
    | _ => False
    end.
Proof.
  pose proof (lowest_free_not_in (fds w)) as Hfree.
  unfold openMaster, bind.
  destruct (os_open os "/dev/ptmx") as [|err] eqn:Hopen.
  - rewrite ptym_open_primary by done. cbn zeta.
    destruct (os_ptsname os _) as [name|err];
      [destruct (os_grantpt os _) as [|err];
         [destruct (os_unlockpt os _) as [|err]|]|];
      eexists _, _; (split; [reflexivity|]); done.
  - rewrite (ptym_open_fallback os w err Hopen), search_for_pty_scan.
    destruct (scan_then_outcome os candidates
                (set_errno err (log (EvOpen "/dev/ptmx" [O_RDWR] (-1)) w)))
      as (r & w' & -> & Hm & Hr).
    destruct r as [fdm|e| |st]; try done; eexists _, _;
      (split; [reflexivity|]); simpl in *.
    + by destruct Hr as [-> ->].
    + by destruct Hr as [_ ->].
Qed.

(** C2, as the code has it.  [openMaster] returns or throws.  When it
    returns, exactly one more descriptor is open, the master it returns and
    stores in [masterFd].  When it throws after the open of the multiplexer
    failed, that is in the legacy scan, the descriptors that are open are
    those that were open before: the failed open of the multiplexer and the
    failed attempts of the scan leave nothing open. *)
Theorem openMaster_descriptors (os : OS) (w : World) :
  ∃ r w', openMaster os w = (r, w') ∧
    match r with
    | Ret m => (m ∉ fds w) ∧ fds w' = {[m]} ∪ fds w ∧ masterFd w' = m
    | Throw _ =>
        match os_open os "/dev/ptmx" with
        | Fail _ => fds w' = fds w
        | Ok => True
        end
    | _ => False
    end.
Proof.
  destruct (openMaster_outcome os w) as (r & w' & Hrun & Hr).
  exists r, w'. split; [done|]. cbn zeta in Hr.
  destruct r as [m|e| |st]; try done.
  - by destruct Hr as (-> & -> & -> & Hfree).
  - destruct Hr as [_ Hr]. by destruct (os_open os "/dev/ptmx").
Qed.

(** C2, as it is stated, fails where the multiplexer opens and the lookup of
    the slave name fails: [openMaster] throws, and descriptor 3, which it
    opened, is still open (and [masterFd] does not hold it). *)
Lemma openMaster_leaves_multiplexer_open :
  let (r, w') :=
    openMaster (with_ptsname (λ _, inr EIO) (system opens_multiplexer)) process in
  r = Throw (Exn unix_exception "ptsname(3) failed: (5)") ∧
  trace w' = [EvOpen "/dev/ptmx" [O_RDWR] 3; EvPtsname 3] ∧
  fds process = {[0; 1; 2]} ∧
  fds w' = {[0; 1; 2; 3]} ∧
  masterFd w' = -1.
Proof. vm_compute. repeat split. Qed.

(** ** The child *)

Lemma answer_eq (e : Event) (r : sysret) (w : World) :
  answer e r w = (Ret (match r with Ok => 0 | Fail _ => -1 end), after_answer e r w).
Proof. by destruct r. Qed.

Lemma after_answer_unchanged (e : Event) (r : sysret) (w : World) :
  ptyName (after_answer e r w) = ptyName w
  ∧ masterFd (after_answer e r w) = masterFd w
  ∧ fds (after_answer e r w) = fds w
  ∧ environ (after_answer e r w) = environ w
  ∧ trace (after_answer e r w) = trace w ++ [e].
Proof. by destruct r. Qed.

Lemma after_chown_chmod_unchanged (os : OS) (w : World) :
  ptyName (after_chown_chmod os w) = ptyName w
  ∧ masterFd (after_chown_chmod os w) = masterFd w
  ∧ fds (after_chown_chmod os w) = fds w
  ∧ environ (after_chown_chmod os w) = environ w
  ∧ trace (after_chown_chmod os w) = trace w ++ chown_chmod_calls os (ptyName w).
Proof.
  unfold after_chown_chmod.
  destruct (os_chmod os (ptyName w) 400), (os_chown os (ptyName w) _ _);
    simpl; by rewrite <- !app_assoc.
Qed.

(** [openSlaveAndCloseMaster], call by call: what [chown] and [chmod] answer
    changes [errno] and nothing else. *)
Lemma openSlaveAndCloseMaster_eval (os : OS) (w : World) :
  openSlaveAndCloseMaster os w =
    let w1 := after_chown_chmod os w in
    match os_open os (ptyName w) with
    | Fail err =>
        (Throw (Exn unix_exception (open_slave_failed os (ptyName w) err)),
         set_errno err (log (EvOpen (ptyName w) [O_RDWR; O_NOCTTY] (-1)) w1))
    | Ok =>
        let fd := lowest_free (fds w) in
        (Ret fd,
         log (EvClose (masterFd w))
           (set_fds (({[fd]} ∪ fds w) ∖ {[masterFd w]})
              (log (EvOpen (ptyName w) [O_RDWR; O_NOCTTY] fd)
                 (set_fds ({[fd]} ∪ fds w) w1))))
    end.
Proof.
  destruct (after_chown_chmod_unchanged os w) as (Hname & Hm & Hfds & _ & _).
  unfold openSlaveAndCloseMaster, bind, sys_getgrnam, gets, sys_chown, sys_chmod.
  cbn [fst snd log ptyName]. rewrite !answer_eq.
  cbn [after_answer]. fold (tty_gid os).
  change (Z.lor (Z.lor S_IRUSR S_IWUSR) S_IWGRP) with 400.
  fold (after_chown_chmod os w).
  unfold sys_open, new_unix_exception, throw, sys_close, modify, ret.
  destruct (os_open os (ptyName w)) as [|err]; cbn zeta.
  - pose proof (lowest_free_nonneg (fds w)) as Hge.
    rewrite Hfds. destruct (lowest_free (fds w) <? 0) eqn:Hlt; [lia|].
    cbn [masterFd log set_fds fds]. by rewrite Hm.
  - done.
Qed.

(** C10. [openSlaveAndCloseMaster] does not look at what [chown] and [chmod]
    answer: it throws exactly when the open of the slave fails, whatever they
    answered, and then the master is not closed.  When the open succeeds it
    closes the descriptor stored in [masterFd] and returns the descriptor of
    the slave, which is open. *)
Theorem openSlaveAndCloseMaster_fails_iff_open_fails (os : OS) (w : World) :
  masterFd w ∈ fds w →
  ∃ r w', openSlaveAndCloseMaster os w = (r, w') ∧
    match os_open os (ptyName w) with
    | Fail err =>
        r = Throw (Exn unix_exception (open_slave_failed os (ptyName w) err)) ∧
        calls_since w w' = chown_chmod_calls os (ptyName w)
                           ++ [EvOpen (ptyName w) [O_RDWR; O_NOCTTY] (-1)] ∧
        fds w' = fds w
    | Ok =>
        let fd := lowest_free (fds w) in
        r = Ret fd ∧
        calls_since w w' = chown_chmod_calls os (ptyName w)
                           ++ [EvOpen (ptyName w) [O_RDWR; O_NOCTTY] fd;
                               EvClose (masterFd w)] ∧
        fds w' = ({[fd]} ∪ fds w) ∖ {[masterFd w]} ∧
        fd ∈ fds w' ∧
        masterFd w ∉ fds w'
    end.
Proof.
  intros Hmaster. rewrite openSlaveAndCloseMaster_eval. cbn zeta.
  destruct (after_chown_chmod_unchanged os w) as (_ & _ & Hfds & _ & Htrace).
  pose proof (lowest_free_not_in (fds w)) as Hfree.
  destruct (os_open os (ptyName w)) as [|err]; eexists _, _;
    (split; [reflexivity|]); (split; [reflexivity|]).
  - split; [|split; [done|]].
    + apply calls_since_app. simpl. rewrite Htrace, <- !app_assoc. done.
    + cbn [fds log set_fds]. split.
      * apply elem_of_difference. split.
        -- apply elem_of_union_l, elem_of_singleton. reflexivity.
        -- rewrite elem_of_singleton. intros Heq. apply Hfree.
           rewrite Heq. exact Hmaster.
      * rewrite elem_of_difference, elem_of_singleton. intros [_ Hne].
        by apply Hne.
  - split; [|done]. apply calls_since_app. simpl. by rewrite Htrace, <- !app_assoc.
Qed.

Lemma openSlaveAndCloseMaster_fails_iff_open_fails_witness :
  (∃ r w', openSlaveAndCloseMaster (system opens_all) child_process = (r, w') ∧
     r = Ret 4 ∧
     calls_since child_process w'
       = chown_chmod_calls (system opens_all) "/dev/pts/3"
         ++ [EvOpen "/dev/pts/3" [O_RDWR; O_NOCTTY] 4; EvClose 3] ∧
     fds w' = ({[4]} ∪ fds child_process) ∖ {[3]} ∧
     4 ∈ fds w' ∧
     3 ∉ fds w')
  ∧
  (∃ r w', openSlaveAndCloseMaster
             (with_chown (λ _ _ _, Fail EIO) (with_chmod (λ _ _, Fail EIO)
                (system opens_nothing))) child_process = (r, w') ∧
     r = Throw (Exn unix_exception
                  "open(/dev/pts/3, O_RDWR | O_NOCTTY) failed: (5)") ∧
     calls_since child_process w'
       = [EvGetgrnam "tty"; EvChown "/dev/pts/3" 1000 5; EvChmod "/dev/pts/3" 400]
         ++ [EvOpen "/dev/pts/3" [O_RDWR; O_NOCTTY] (-1)] ∧
     fds w' = fds child_process).
Proof.
  split.
  - apply (openSlaveAndCloseMaster_fails_iff_open_fails (system opens_all) child_process).
    vm_compute. reflexivity.
  - apply (openSlaveAndCloseMaster_fails_iff_open_fails
             (with_chown (λ _ _ _, Fail EIO) (with_chmod (λ _ _, Fail EIO)
                (system opens_nothing))) child_process).
    vm_compute. reflexivity.
Defined.

(** C3, as the code has it.  When the child's open of the slave fails, the
    child writes the text of the exception on standard error and terminates
    with status 1.  Nothing is written on a stream over the slave: no
    descriptor of the slave exists, and [openSlaveAndCloseMaster] throws a
    plain [unix_exception], not a [child_exception_via_pipe]. *)
Theorem slave_open_failure_is_reported_on_stderr
    (os : OS) (w : World) (cmd : list string) (workingDirectory : option string)
    (err : Z) :
  os_fork os = 0 →
  chdir_succeeds os workingDirectory = true →
  os_setsid os = Ok →
  os_open os (ptyName w) = Fail err →
  ∃ w', forkAndExec os cmd workingDirectory w = (Exited 1, w') ∧
    calls_since w w'
      = chdir_calls workingDirectory ++ [EvSetsid]
        ++ chown_chmod_calls os (ptyName w)
        ++ [EvOpen (ptyName w) [O_RDWR; O_NOCTTY] (-1);
            EvCerr (open_slave_failed os (ptyName w) err +:+ newline);
            EvExit 1] ∧
    List.filter is_side_channel_write (calls_since w w') = [] ∧
    fds w' = fds w.
Proof.
  intros Hfork Hchdir Hsetsid Hopen.
  set (w1 := match workingDirectory with
             | Some dir => log (EvChdir dir) w
             | None => w
             end).
  set (w2 := log EvSetsid w1).
  assert (Hw2 : ptyName w2 = ptyName w ∧ fds w2 = fds w
                ∧ trace w2 = trace w ++ chdir_calls workingDirectory ++ [EvSetsid]).
  { subst w2 w1. destruct workingDirectory; simpl.
    - by rewrite <- app_assoc.
    - done. }
  destruct Hw2 as (Hname & Hfds & Htrace).
  assert (Hrun : ∃ w3, runChild os cmd workingDirectory w
                 = (Throw (Exn unix_exception (open_slave_failed os (ptyName w) err)), w3)
                 ∧ fds w3 = fds w
                 ∧ trace w3 = trace w ++ chdir_calls workingDirectory ++ [EvSetsid]
                     ++ chown_chmod_calls os (ptyName w)
                     ++ [EvOpen (ptyName w) [O_RDWR; O_NOCTTY] (-1)]).
  { assert (Hstart : ∀ k : unit → M unit,
              bind (match workingDirectory with
                    | Some dir =>
                        let* r := sys_chdir os dir in
                        if r <? 0 then
                          let* ex := new_child_exception os child_exception
                                       ("chdir(" +:+ String (ascii_of_nat 34) "" +:+ dir
                                        +:+ String (ascii_of_nat 34) "" +:+ ")") in
                          throw ex
                        else ret tt
                    | None => ret tt
                    end) k w = k tt w1).
    { intros k. subst w1. unfold bind. destruct workingDirectory as [dir|]; [|done].
      simpl in Hchdir. apply bool_decide_eq_true in Hchdir.
      unfold sys_chdir. rewrite answer_eq, Hchdir. done. }
    unfold runChild. rewrite Hstart.
    unfold bind at 1. unfold sys_setsid. rewrite answer_eq, Hsetsid.
    cbn [after_answer]. fold w2. unfold bind at 1. cbn [Z.ltb Z.compare ret].
    unfold bind at 1. rewrite openSlaveAndCloseMaster_eval. cbn zeta.
    rewrite Hname, Hopen.
    destruct (after_chown_chmod_unchanged os w2) as (_ & _ & Hfds' & _ & Htrace').
    eexists. split; [reflexivity|]. cbn [fds trace set_errno log].
    rewrite Hfds', Htrace', Hfds, Htrace, Hname, <- !app_assoc. done. }
  destruct Hrun as (w3 & Hrun & Hfds3 & Htrace3).
  unfold forkAndExec, bind, sys_fork, gets. rewrite Hfork. cbn [Z.ltb Z.eqb Z.compare].
  unfold try_catch. rewrite Hrun.
  change (handler_matches std_exception
            (exn_class (Exn unix_exception (open_slave_failed os (ptyName w) err))))
    with true.
  cbn [what]. unfold cerr_line, emit, modify, sys_exit.
  eexists. split; [reflexivity|].
  assert (Hcalls : calls_since w
            (log (EvExit 1)
               (log (EvCerr (open_slave_failed os (ptyName w) err +:+ newline)) w3))
          = chdir_calls workingDirectory ++ [EvSetsid]
            ++ chown_chmod_calls os (ptyName w)
            ++ [EvOpen (ptyName w) [O_RDWR; O_NOCTTY] (-1);
                EvCerr (open_slave_failed os (ptyName w) err +:+ newline);
                EvExit 1]).
  { apply calls_since_app. simpl. rewrite Htrace3, <- !app_assoc. done. }
  rewrite Hcalls. split; [done|]. split; [|done].
  by destruct workingDirectory.
Qed.

Lemma slave_open_failure_is_reported_on_stderr_witness :
  ∃ w', forkAndExec (system opens_nothing) ["sh"] (Some "/home") child_process
        = (Exited 1, w') ∧
    calls_since child_process w'
      = chdir_calls (Some "/home") ++ [EvSetsid]
        ++ chown_chmod_calls (system opens_nothing) (ptyName child_process)
        ++ [EvOpen (ptyName child_process) [O_RDWR; O_NOCTTY] (-1);
            EvCerr (open_slave_failed (system opens_nothing)
                      (ptyName child_process) EIO +:+ newline);
            EvExit 1] ∧
    List.filter is_side_channel_write (calls_since child_process w') = [] ∧
    fds w' = fds child_process.
Proof.
  apply (slave_open_failure_is_reported_on_stderr
           (system opens_nothing) child_process ["sh"] (Some "/home") EIO);
    reflexivity.
Defined.

(** C3, as it is stated, fails in a child whose slave does not open: the
    text is written on standard error, and nothing is written on a stream
    over the slave. *)
Lemma slave_open_failure_not_on_side_channel :
  let (r, w') := forkAndExec (system opens_nothing) ["sh"] None child_process in
  r = Exited 1 ∧
  trace w' = [EvSetsid; EvGetgrnam "tty"; EvChown "/dev/pts/3" 1000 5;
              EvChmod "/dev/pts/3" 400;
              EvOpen "/dev/pts/3" [O_RDWR; O_NOCTTY] (-1);
              EvCerr ("open(/dev/pts/3, O_RDWR | O_NOCTTY) failed: (5)" +:+ newline);
              EvExit 1] ∧
  List.filter is_side_channel_write (trace w') = [] ∧
  List.filter is_cerr_write (trace w')
    = [EvCerr ("open(/dev/pts/3, O_RDWR | O_NOCTTY) failed: (5)" +:+ newline)].
Proof. vm_compute. repeat split. Qed.

(** The handler of [forkAndExec], [catch (const std::exception&)], takes the
    exceptions of the classes derived publicly from [std::exception], and
    does not take a [child_exception_via_pipe], whose base is private. *)
Lemma handler_of_forkAndExec :
  handler_matches std_exception std_runtime_error = true
  ∧ handler_matches std_exception unix_exception = true
  ∧ handler_matches std_exception child_exception = true
  ∧ handler_matches std_exception child_exception_via_pipe = false.
Proof. repeat split. Qed.

(** In the child, [forkAndExec] is [runChild] followed by [exit(1)], unless
    the program is replaced or an exception passes the handler. *)
Lemma forkAndExec_child (os : OS) (cmd : list string)
    (workingDirectory : option string) (w : World) :
  os_fork os = 0 →
  forkAndExec os cmd workingDirectory w =
    match runChild os cmd workingDirectory w with
    | (Ret _, w') => (Exited 1, log (EvExit 1) w')
    | (Throw e, w') =>
        if handler_matches std_exception (exn_class e)
        then (Exited 1, log (EvExit 1) (log (EvCerr (what e +:+ newline)) w'))
        else (Throw e, w')
    | (Replaced, w') => (Replaced, w')
    | (Exited status, w') => (Exited status, w')
    end.
Proof.
  intros Hfork. unfold forkAndExec, bind, sys_fork, gets, try_catch.
  rewrite Hfork. cbn [Z.ltb Z.eqb Z.compare].
  destruct (runChild os cmd workingDirectory w) as [[[]|e| |status] w']; try done.
  by destruct (handler_matches std_exception (exn_class e)).
Qed.

(** ** [closeUnusedFiles] *)

Section CloseUnusedFiles.
Variable os : OS.

Lemma collect_fds_filter (names : list string) (acc : list Z) :
  collect_fds os names acc = acc ++ List.filter (Z.ltb 2) (map (entry_fd os) names).
Proof.
  revert acc. induction names as [|name names IH]; intros acc; simpl.
  - by rewrite app_nil_r.
  - rewrite IH. fold (entry_fd os name). unfold STDERR_FILENO.
    destruct (2 <? entry_fd os name); [|done]. by rewrite <- app_assoc.
Qed.

Lemma close_fds_eval (l : list Z) (w : World) :
  close_fds l w = (Ret tt, after_closes w l).
Proof.
  revert w. induction l as [|fd l IH]; intros w; [done|].
  cbn [close_fds]. unfold bind, sys_close, modify. apply IH.
Qed.

Lemma after_closes_spec (l : list Z) (w : World) :
  trace (after_closes w l) = trace w ++ map EvClose l
  ∧ environ (after_closes w l) = environ w
  ∧ ∀ fd, fd ∈ fds (after_closes w l) ↔ fd ∈ fds w ∧ fd ∉ l.
Proof.
  revert w. induction l as [|x l IH]; intros w.
  - simpl. rewrite app_nil_r. split; [done|]. split; [done|].
    intros fd. split; [|tauto]. intros Hfd. split; [done|].
    apply not_elem_of_nil.
  - unfold after_closes. cbn [foldl]. fold (after_closes
      (log (EvClose x) (set_fds (fds w ∖ {[x]}) w)) l).
    destruct (IH (log (EvClose x) (set_fds (fds w ∖ {[x]}) w))) as (-> & -> & Hfds).
    simpl. rewrite <- app_assoc. split; [done|]. split; [done|].
    intros fd. rewrite Hfds. cbn [fds log set_fds].
    rewrite elem_of_difference, elem_of_singleton, not_elem_of_cons. tauto.
Qed.

Lemma closed_fds_above_2 (fd : Z) :
  fd ∈ closed_fds os ↔
  2 < fd ∧ fd ∈ map (entry_fd os) (os_readdir os (fdDirectory os)).
Proof.
  unfold closed_fds. rewrite !list_elem_of_In, filter_In, Z.ltb_lt. tauto.
Qed.
End CloseUnusedFiles.

(** C8. [closeUnusedFiles] reads the enumeration first and closes afterwards.
    It closes the numbers above 2 that it reads in the names, and no other:
    0, 1 and 2 are never closed, and a name that does not read as a number
    above 2 is skipped; it always returns.  When the enumeration lists the
    descriptors that are open, the descriptors left open are exactly those of
    0, 1 and 2 that were open. *)
Theorem closeUnusedFiles_closes_exactly_above_2 (os : OS) (w : World) :
  lists_open_descriptors os w = true →
  ∃ w', closeUnusedFiles os w = (Ret tt, w') ∧
    calls_since w w' = EvReaddir (fdDirectory os) :: map EvClose (closed_fds os) ∧
    (∀ fd, fd ∈ closed_fds os ↔
           2 < fd ∧ fd ∈ map (entry_fd os) (os_readdir os (fdDirectory os))) ∧
    (∀ fd, fd ∈ fds w' ↔ fd ∈ fds w ∧ fd ≤ 2) ∧
    environ w' = environ w.
Proof.
  intros Hlisted. apply bool_decide_eq_true in Hlisted.
  unfold closeUnusedFiles, bind, sys_readdir.
  rewrite collect_fds_filter, close_fds_eval. cbn [app]. fold (closed_fds os).
  destruct (after_closes_spec (closed_fds os) (log (EvReaddir (fdDirectory os)) w))
    as (Htrace & Henv & Hfds).
  eexists. split; [reflexivity|]. split; [|split; [|split]].
  - apply calls_since_app. rewrite Htrace. simpl. by rewrite <- app_assoc.
  - apply closed_fds_above_2.
  - intros fd. rewrite Hfds. cbn [fds log]. rewrite closed_fds_above_2.
    split.
    + intros [Hfd Hnot]. split; [done|].
      destruct (decide (fd ≤ 2)) as [|Hgt]; [done|]. exfalso. apply Hnot.
      split; [lia|]. apply Hlisted in Hfd. by apply elem_of_list_to_set in Hfd.
    + intros [Hfd Hle]. split; [done|]. intros [Hgt _]. lia.
  - by rewrite Henv.
Qed.

Lemma closeUnusedFiles_closes_exactly_above_2_witness :
  ∃ w', closeUnusedFiles (with_readdir (λ _, listing) (system opens_all))
          child_with_socket = (Ret tt, w') ∧
    calls_since child_with_socket w'
      = EvReaddir "/proc/self/fd" :: map EvClose [4; 5; 7] ∧
    (∀ fd, fd ∈ closed_fds (with_readdir (λ _, listing) (system opens_all)) ↔
           2 < fd ∧ fd ∈ map (entry_fd (with_readdir (λ _, listing) (system opens_all)))
                          listing) ∧
    (∀ fd, fd ∈ fds w' ↔ fd ∈ fds child_with_socket ∧ fd ≤ 2) ∧
    environ w' = environ child_with_socket.
Proof.
  apply (closeUnusedFiles_closes_exactly_above_2
           (with_readdir (λ _, listing) (system opens_all)) child_with_socket).
  vm_compute. reflexivity.
Defined.

(** Names that [closeUnusedFiles] reads as no descriptor above 2, and names it
    reads as one. *)
Example entry_fd_examples :
  map (entry_fd (system opens_all))
    ["."; ".."; "lock"; "0"; "2"; "3"; "12"; " 7"; "12abc"; "-5";
     "99999999999999999999"; "4294967299"]
  = [0; 0; 0; 0; 2; 3; 12; 7; 12; -5; -1; 3].
Proof. reflexivity. Qed.

(** ** [fixEnvironment] *)

Lemma fixEnvironment_eval (os : OS) (w : World) :
  ∃ w', fixEnvironment os w = (Ret tt, w') ∧
    fds w' = fds w ∧
    environ w' =
      let env := delete "WINDOWID" (<["TERM" := "terminator"]> (environ w)) in
      if defined_APPLE os then
        delete "TERM_PROGRAM_VERSION"
          (delete "TERM_PROGRAM"
             (delete ("JAVA_MAIN_CLASS_" +:+ toString (os_getppid os))
                (delete ("APP_NAME_" +:+ toString (os_getppid os))
                   (delete ("APP_ICON_" +:+ toString (os_getppid os)) env))))
      else delete "COLORTERM" env.
Proof.
  unfold fixEnvironment, bind, putenv, unsetenv, modify.
  destruct (defined_APPLE os); eexists; (split; [reflexivity|]); done.
Qed.

(** C9, as the code has it.  After [fixEnvironment], [TERM] is "terminator"
    and [WINDOWID] is unset, on every platform.  Compiled for Apple, the
    variables [APP_ICON_], [APP_NAME_] and [JAVA_MAIN_CLASS_] of the parent
    process id, [TERM_PROGRAM] and [TERM_PROGRAM_VERSION] are unset, and
    [COLORTERM] is as it was inherited.  Compiled for any other platform,
    [COLORTERM] is unset and those five variables are as they were
    inherited. *)
Theorem fixEnvironment_variables (os : OS) (w : World) :
  ∃ w', fixEnvironment os w = (Ret tt, w') ∧
    environ w' !! "TERM" = Some "terminator" ∧
    environ w' !! "WINDOWID" = None ∧
    let ppid := toString (os_getppid os) in
    if defined_APPLE os then
      environ w' !! ("APP_ICON_" +:+ ppid) = None ∧
      environ w' !! ("APP_NAME_" +:+ ppid) = None ∧
      environ w' !! ("JAVA_MAIN_CLASS_" +:+ ppid) = None ∧
      environ w' !! "TERM_PROGRAM" = None ∧
      environ w' !! "TERM_PROGRAM_VERSION" = None ∧
      environ w' !! "COLORTERM" = environ w !! "COLORTERM"
    else
      environ w' !! "COLORTERM" = None ∧
      environ w' !! ("APP_ICON_" +:+ ppid) = environ w !! ("APP_ICON_" +:+ ppid) ∧
      environ w' !! ("APP_NAME_" +:+ ppid) = environ w !! ("APP_NAME_" +:+ ppid) ∧
      environ w' !! ("JAVA_MAIN_CLASS_" +:+ ppid)
        = environ w !! ("JAVA_MAIN_CLASS_" +:+ ppid) ∧
      environ w' !! "TERM_PROGRAM" = environ w !! "TERM_PROGRAM" ∧
      environ w' !! "TERM_PROGRAM_VERSION" = environ w !! "TERM_PROGRAM_VERSION".
Proof.
  destruct (fixEnvironment_eval os w) as (w' & Hrun & _ & Henv).
  exists w'. split; [done|]. rewrite Henv. clear Henv Hrun. cbn zeta.
  generalize (toString (os_getppid os)). intros ppid.
  destruct (defined_APPLE os); cbn [String.app];
    repeat split;
    repeat first
      [ rewrite lookup_delete_eq
      | rewrite lookup_delete_ne by discriminate
      | rewrite lookup_insert_eq
      | rewrite lookup_insert_ne by discriminate ];
    reflexivity.
Qed.

(** C9, as it is stated, fails on both sides of the platform switch: compiled
    for a platform that is not Apple, the child inherits [TERM_PROGRAM],
    [TERM_PROGRAM_VERSION] and [APP_ICON_] of the parent process id; compiled
    for Apple, it inherits [COLORTERM]. *)
Lemma fixEnvironment_leaves_identification_variables :
  (let (r, w') := fixEnvironment (system opens_all) launched_child in
   r = Ret tt ∧
   environ w' !! "TERM_PROGRAM" = Some "Apple_Terminal" ∧
   environ w' !! "TERM_PROGRAM_VERSION" = Some "433" ∧
   environ w' !! "APP_ICON_4711" = Some "Terminator.icns")
  ∧
  (let (r, w') := fixEnvironment (with_APPLE true (system opens_all)) launched_child in
   r = Ret tt ∧
   environ w' !! "COLORTERM" = Some "truecolor").
Proof. vm_compute. repeat split. Qed.

(** ** The order of the calls of the child *)

Lemma take_prefix_app {A} (n : nat) (l k : list A) :
  take (length (take n l)) (l ++ k) = take n l.
Proof.
  rewrite take_app_le by (rewrite length_take; lia).
  rewrite length_take. destruct (Nat.le_ge_cases n (length l)) as [Hle|Hge].
  - by rewrite Nat.min_l.
  - rewrite Nat.min_r by done. by rewrite !take_ge.
Qed.

Lemma runs_bind {A B} (b : bool) (m : M A) (k : A → M B) (w : World)
    (c1 c2 : list Event) (Q : A → World → Prop) (Q' : B → World → Prop) :
  runs false m w c1 Q →
  (∀ a w1, Q a w1 → trace w1 = trace w ++ c1 → runs b (k a) w1 c2 Q') →
  runs b (bind m k) w (c1 ++ c2) Q'.
Proof.
  intros (r & w1 & Hm & Hr) Hk. unfold runs, bind. rewrite Hm.
  destruct r as [a|e| |st]; [| |by destruct Hr|done].
  2:{ destruct Hr as (n & tail & Htrace & Htail).
      exists (Throw e), w1. split; [done|].
      exists (length (take n c1)), tail. split; [|done].
      rewrite Htrace. do 2 f_equal. symmetry. apply take_prefix_app. }
  - destruct Hr as [Htrace HQ].
    destruct (Hk a w1 HQ Htrace) as (r2 & w2 & Hk2 & Hr2).
    exists r2, w2. split; [done|]. rewrite Htrace in Hr2.
    destruct r2 as [a2|e| |st]; [| | |done].
    + destruct Hr2 as [-> HQ']. by rewrite <- app_assoc.
    + destruct Hr2 as (n & tail & -> & Htail).
      exists (length c1 + n)%nat, tail. split; [|done].
      by rewrite take_app_add, <- !app_assoc.
    + destruct Hr2 as [-> ->]. by rewrite <- app_assoc.
Qed.

Lemma runs_post {A} (b : bool) (m : M A) (w : World) (calls : list Event)
    (Q Q' : A → World → Prop) :
  (∀ a w1, Q a w1 → Q' a w1) → runs b m w calls Q → runs b m w calls Q'.
Proof.
  intros HQ (r & w1 & Hm & Hr). exists r, w1. split; [done|].
  destruct r; try done. destruct Hr as [Ht Hq]. split; [done|]. by apply HQ.
Qed.

Lemma runs_ret {A} (b : bool) (a : A) (w : World) (Q : A → World → Prop) :
  Q a w → runs b (ret a) w [] Q.
Proof.
  intros HQ. exists (Ret a), w. split; [done|]. split; [|done].
  by rewrite app_nil_r.
Qed.

Lemma same_process_refl (w : World) : same_process w w.
Proof. done. Qed.

Lemma same_process_trans (w1 w2 w3 : World) :
  same_process w1 w2 → same_process w2 w3 → same_process w1 w3.
Proof. intros (H1 & H2 & H3) (H4 & H5 & H6). repeat split; congruence. Qed.

Lemma runs_answer (e : Event) (r : sysret) (w : World) :
  runs false (answer e r) w [e]
    (λ v w1, v = match r with Ok => 0 | Fail _ => -1 end ∧ same_process w w1).
Proof.
  exists (Ret (match r with Ok => 0 | Fail _ => -1 end)), (after_answer e r w).
  split; [apply answer_eq|].
  destruct (after_answer_unchanged e r w) as (? & ? & ? & _ & ?). done.
Qed.

Lemma runs_throw_unix {A} (os : OS) (b : bool) (c : cxx_class) (message : string)
    (w : World) (calls : list Event) (Q : A → World → Prop) :
  c ≠ child_exception_via_pipe →
  runs b (let* ex := new_unix_exception os c message in throw ex) w calls Q.
Proof.
  intros Hc. eexists _, _. split; [reflexivity|].
  exists 0%nat, []. split; [by rewrite take_0, !app_nil_r|]. by constructor.
Qed.

Lemma runs_throw_pipe {A} (os : OS) (b : bool) (pipeFd : Z) (message : string)
    (w : World) (calls : list Event) (Q : A → World → Prop) :
  runs b (let* ex := new_child_exception_via_pipe os pipeFd message in throw ex)
    w calls Q.
Proof.
  eexists _, _. split; [reflexivity|].
  exists 0%nat. eexists. split; [rewrite take_0; reflexivity|].
  by apply tail_pipe.
Qed.

(** [if (r < 0) throw ...] after a call that answered [r]. *)
Lemma runs_check (b : bool) (r : sysret) (v : Z) (thrower : M unit) (w : World) :
  v = match r with Ok => 0 | Fail _ => -1 end →
  (∀ w', runs b thrower w' [] (λ _ _, False)) →
  runs b (if v <? 0 then thrower else ret tt) w [] (λ _ w1, w1 = w).
Proof.
  intros -> Hthrow. destruct r; simpl.
  - by apply runs_ret.
  - eapply runs_post; [|apply Hthrow]. done.
Qed.

Section Child.
Variable os : OS.

Lemma runs_openSlaveAndCloseMaster (w : World) :
  runs false (openSlaveAndCloseMaster os) w
    (chown_chmod_calls os (ptyName w)
     ++ [EvOpen (ptyName w) [O_RDWR; O_NOCTTY] (lowest_free (fds w));
         EvClose (masterFd w)])
    (λ childFd _, childFd = lowest_free (fds w)).
Proof.
  unfold runs. rewrite openSlaveAndCloseMaster_eval. cbn zeta.
  destruct (after_chown_chmod_unchanged os w) as (_ & _ & _ & _ & Htrace).
  destruct (os_open os (ptyName w)) as [|err]; eexists _, _;
    (split; [reflexivity|]); cbn [trace log set_fds set_errno]; rewrite Htrace.
  - split; [|done]. by rewrite <- !app_assoc.
  - exists 3%nat, [EvOpen (ptyName w) [O_RDWR; O_NOCTTY] (-1)].
    split; [|by apply tail_open]. by rewrite <- !app_assoc.
Qed.

Lemma runs_rebind (childFd slot : Z) (slot_name : string) (w : World) :
  runs false (rebind os childFd slot slot_name) w (rebind_calls childFd slot)
    (λ _ _, True).
Proof.
  unfold rebind, rebind_calls. destruct (childFd =? slot); simpl.
  - by apply runs_ret.
  - unfold runs, bind, sys_dup2.
    destruct (os_dup2 os childFd slot) as [|err].
    + rewrite Z.eqb_refl. simpl. eexists _, _. split; [reflexivity|]. done.
    + change (-1 =? slot) with (Z.eqb (-1) slot).
      destruct (-1 =? slot) eqn:Hslot.
      * simpl. eexists _, _. split; [reflexivity|]. done.
      * simpl. eexists _, _. split; [reflexivity|].
        exists 1%nat. eexists.
        split; [cbn [trace log set_errno]; rewrite <- app_assoc; reflexivity|].
        by apply tail_pipe.
Qed.

Lemma runs_closeUnusedFiles (w : World) :
  runs false (closeUnusedFiles os) w
    (EvReaddir (fdDirectory os) :: map EvClose (closed_fds os)) (λ _ _, True).
Proof.
  unfold runs, closeUnusedFiles, bind, sys_readdir.
  rewrite collect_fds_filter, close_fds_eval. cbn [app]. fold (closed_fds os).
  destruct (after_closes_spec (closed_fds os) (log (EvReaddir (fdDirectory os)) w))
    as (Htrace & _ & _).
  eexists _, _. split; [reflexivity|]. split; [|done].
  rewrite Htrace. simpl. by rewrite <- app_assoc.
Qed.

Lemma runs_fixEnvironment (w : World) :
  runs false (fixEnvironment os) w (environment_calls os) (λ _ _, True).
Proof.
  unfold runs, fixEnvironment, environment_calls, bind, putenv, unsetenv, modify.
  destruct (defined_APPLE os); eexists _, _; (split; [reflexivity|]);
    (split; [|done]); simpl; by rewrite <- !app_assoc.
Qed.

Lemma runs_signal_dfl (sig : signum) (w : World) :
  runs false (signal_dfl sig) w [EvSignalDfl sig] (λ _ _, True).
Proof. eexists _, _. split; [reflexivity|]. done. Qed.

Lemma runs_execvp (cmd : list string) (w : World) :
  runs true
    (let* _ := sys_execvp os (hd "" cmd) cmd in
     let* ex := new_unix_exception os unix_exception
                  ("Can't execute '" +:+ hd "" cmd +:+ "'") in
     throw ex)
    w [EvExecvp (hd "" cmd) cmd] (λ (_ : unit) _, False).
Proof.
  unfold runs, bind, sys_execvp.
  destruct (os_execvp os (hd "" cmd) cmd) as [|err]; eexists _, _;
    (split; [reflexivity|]).
  - done.
  - exists 1%nat, []. split; [by rewrite app_nil_r|]. by constructor.
Qed.

Lemma runs_bind_nil {A B} (b : bool) (m : M A) (k : A → M B) (w : World)
    (calls : list Event) (Q : A → World → Prop) (Q' : B → World → Prop) :
  runs false m w [] Q →
  (∀ a w1, Q a w1 → runs b (k a) w1 calls Q') →
  runs b (bind m k) w calls Q'.
Proof.
  intros Hm Hk. apply (runs_bind b m k w [] calls Q Q' Hm).
  intros a w1 HQ _. by apply Hk.
Qed.

(** [runChild] makes the calls of the bootstrap in their order, up to the
    call that fails; it returns to nobody. *)
Lemma runChild_runs (cmd : list string) (workingDirectory : option string)
    (w : World) :
  runs true (runChild os cmd workingDirectory) w
    (bootstrap_calls os w cmd workingDirectory) (λ _ _, False).
Proof.
  unfold runChild, bootstrap_calls. cbn zeta.
  eapply runs_bind with (Q := λ _ w1, same_process w w1).
  { destruct workingDirectory as [dir|]; cbn [chdir_calls].
    - change [EvChdir dir] with ([EvChdir dir] ++ []).
      eapply runs_bind; [apply runs_answer|].
      intros v w1 [Hv Hsame] _.
      eapply runs_post; [|eapply runs_check; [exact Hv|]].
      + by intros _ ? ->.
      + intros w'. by apply runs_throw_unix.
    - by apply runs_ret. }
  intros _ w1 Hsame1 _.
  eapply runs_bind; [apply runs_answer|]. intros v w2 [Hv Hsame2] _.
  eapply runs_bind_nil.
  { eapply runs_check; [exact Hv|]. intros w'. by apply runs_throw_unix. }
  intros _ ? ->.
  destruct (same_process_trans _ _ _ Hsame1 Hsame2) as (Hname & Hmaster & Hfds).
  rewrite <- Hname, <- Hmaster, <- Hfds. clear dependent w. clear dependent w1.
  eapply runs_bind; [apply runs_openSlaveAndCloseMaster|].
  intros childFd w3 -> _.
  generalize (lowest_free (fds w2)). clear w2. intros childFd.
  eapply runs_bind with (Q := λ _ _, True).
  { destruct (defined_TIOCSCTTY os); [|by apply runs_ret].
    change [EvIoctl childFd TIOCSCTTY] with ([EvIoctl childFd TIOCSCTTY] ++ []).
    eapply runs_bind; [apply runs_answer|].
    intros v' w1 [Hv' _] _.
    eapply runs_post; [|eapply runs_check; [exact Hv'|]]; [done|].
    intros w'. apply runs_throw_pipe. }
  intros _ w4 _ _.
  eapply runs_bind with (Q := λ _ _, True).
  { destruct (defined_sun os); [|by apply runs_ret].
    change [EvIoctl childFd (I_PUSH "ptem"); EvIoctl childFd (I_PUSH "ldterm");
            EvIoctl childFd (I_PUSH "ttcompat")]
      with ([EvIoctl childFd (I_PUSH "ptem")] ++ [EvIoctl childFd (I_PUSH "ldterm")]
            ++ [EvIoctl childFd (I_PUSH "ttcompat")] ++ []).
    eapply runs_bind; [apply runs_answer|]. intros _ ? _ _.
    eapply runs_bind; [apply runs_answer|]. intros _ ? _ _.
    eapply runs_bind; [apply runs_answer|]. intros _ ? _ _.
    by apply runs_ret. }
  intros _ w5 _ _.
  eapply runs_bind; [apply runs_rebind|]. intros _ w6 _ _.
  eapply runs_bind; [apply runs_rebind|]. intros _ w7 _ _.
  eapply runs_bind; [apply runs_rebind|]. intros _ w8 _ _.
  eapply runs_bind with (Q := λ _ _, True).
  { destruct (STDERR_FILENO <? childFd); [|by apply runs_ret].
    eexists _, _. split; [reflexivity|]. done. }
  intros _ w9 _ _.
  eapply runs_bind; [apply runs_closeUnusedFiles|]. intros _ w10 _ _.
  eapply runs_bind; [apply runs_fixEnvironment|]. intros _ w11 _ _.
  eapply runs_bind; [apply runs_signal_dfl|]. intros _ w12 _ _.
  eapply runs_bind; [apply runs_signal_dfl|]. intros _ w13 _ _.
  eapply runs_bind; [apply runs_signal_dfl|]. intros _ w14 _ _.
  apply runs_execvp.
Qed.
End Child.



(** In the parent, [forkAndExec] returns the process id, or -1 when [fork]
    failed, and makes no call. *)
Lemma forkAndExec_parent (os : OS) (cmd : list string)
    (workingDirectory : option string) (w : World) :
  os_fork os ≠ 0 →
  forkAndExec os cmd workingDirectory w
  = (Ret (if os_fork os <? 0 then -1 else os_fork os), w).
Proof.
  intros Hpid. unfold forkAndExec, bind, sys_fork, gets.
  destruct (os_fork os <? 0) eqn:Hneg; [done|].
  destruct (os_fork os =? 0) eqn:Hzero; [|done].
  apply Z.eqb_eq in Hzero. done.
Qed.

(** C4 at a failing input: a child in which [ioctl(childFd, TIOCSCTTY, 0)]
    fails.  The step throws a [child_exception_via_pipe]; no later step runs,
    but the handler of [forkAndExec] does not take the exception: it leaves
    [forkAndExec], and the child is back in the code of the caller without
    having called [exit]. *)
Lemma failed_TIOCSCTTY_returns_into_the_caller :
  let (r, w') := forkAndExec (with_ioctl (λ _ _, Fail ENOTTY) (system opens_all))
                   ["sh"] None child_process in
  r = Throw (Exn child_exception_via_pipe
               "Error from child: ioctl(4, TIOCSCTTY, 0): (25)") ∧
  trace w' = [EvSetsid; EvGetgrnam "tty"; EvChown "/dev/pts/3" 1000 5;
              EvChmod "/dev/pts/3" 400;
              EvOpen "/dev/pts/3" [O_RDWR; O_NOCTTY] 4; EvClose 3;
              EvIoctl 4 TIOCSCTTY;
              EvFprintf 4 ("Error from child: ioctl(4, TIOCSCTTY, 0): (25)"
                           +:+ newline)].
Proof. vm_compute. repeat split. Qed.

(** C7 at a failing input: a child in which [dup2(childFd, STDIN_FILENO)]
    fails.  The bootstrap fails and the child does not terminate with status
    1: the [child_exception_via_pipe] leaves [forkAndExec] and [exit(1)] is
    not reached. *)
Lemma failed_dup2_child_does_not_exit :
  let (r, w') := forkAndExec (with_dup2 (λ _ _, Fail EBADF) (system opens_all))
                   ["sh"] None child_process in
  r = Throw (Exn child_exception_via_pipe
               "Error from child: dup2(4, STDIN_FILENO): (9)") ∧
  r ≠ Exited 1 ∧
  trace w' = [EvSetsid; EvGetgrnam "tty"; EvChown "/dev/pts/3" 1000 5;
              EvChmod "/dev/pts/3" 400;
              EvOpen "/dev/pts/3" [O_RDWR; O_NOCTTY] 4; EvClose 3;
              EvIoctl 4 TIOCSCTTY; EvDup2 4 0;
              EvFprintf 4 ("Error from child: dup2(4, STDIN_FILENO): (9)"
                           +:+ newline)].
Proof. vm_compute. repeat split. discriminate. Qed.

(** When [execvp] fails, the last statements of [runChild] throw a
    [unix_exception] whose text has the name of the program in it; the
    handler of [forkAndExec] takes it ([forkAndExec_child]). *)
Lemma failed_execvp_throws (os : OS) (cmd : list string) (w : World) (err : Z) :
  os_execvp os (hd "" cmd) cmd = Fail err →
  (let* _ := sys_execvp os (hd "" cmd) cmd in
   let* ex := new_unix_exception os unix_exception
                ("Can't execute '" +:+ hd "" cmd +:+ "'") in
   throw ex : M unit) w
  = (Throw (Exn unix_exception
              (("Can't execute '" +:+ hd "" cmd +:+ "'") +:+ os_strerror os err)),
     set_errno err (log (EvExecvp (hd "" cmd) cmd) w)).
Proof.
  intros Hexec. unfold bind, sys_execvp, new_unix_exception, throw.
  by rewrite Hexec.
Qed.

(** The part of C7 on a failed [execvp], in a run: the child writes a text
    with the name of the program on standard error and exits with status 1. *)
Example failed_execvp_exits_1 :
  let (r, w') := forkAndExec (with_execvp (λ _ _, Fail ENOENT) (system opens_all))
                   ["nosuchprogram"; "-l"] None child_process in
  r = Exited 1 ∧
  drop 19 (trace w')
  = [EvExecvp "nosuchprogram" ["nosuchprogram"; "-l"];
     EvCerr ("Can't execute 'nosuchprogram': (2)" +:+ newline); EvExit 1].
Proof. vm_compute. repeat split. Qed.

(** Runs of the child and of the parent on the systems above. *)
Example bootstrap_that_succeeds :
  let (r, w') := forkAndExec (system opens_all) ["sh"; "-l"] (Some "/home")
                   child_process in
  r = Replaced ∧
  trace w' = [EvChdir "/home"; EvSetsid; EvGetgrnam "tty";
              EvChown "/dev/pts/3" 1000 5; EvChmod "/dev/pts/3" 400;
              EvOpen "/dev/pts/3" [O_RDWR; O_NOCTTY] 4; EvClose 3;
              EvIoctl 4 TIOCSCTTY; EvDup2 4 0; EvDup2 4 1; EvDup2 4 2;
              EvClose 4; EvReaddir "/proc/self/fd"; EvClose 3;
              EvPutenv "TERM=terminator"; EvUnsetenv "WINDOWID";
              EvUnsetenv "COLORTERM"; EvSignalDfl SIGINT; EvSignalDfl SIGQUIT;
              EvSignalDfl SIGCHLD; EvExecvp "sh" ["sh"; "-l"]] ∧
  fds w' = {[0; 1; 2]} ∧
  environ w' !! "TERM" = Some "terminator".
Proof. vm_compute. repeat split. Qed.

Example failed_chdir_exits_1 :
  let (r, w') := forkAndExec (with_chdir (λ _, Fail ENOENT) (system opens_all))
                   ["sh"] (Some "/nowhere") child_process in
  r = Exited 1 ∧
  trace w' = [EvChdir "/nowhere";
              EvCerr ("Error from child: chdir(" +:+ String (ascii_of_nat 34) ""
                      +:+ "/nowhere" +:+ String (ascii_of_nat 34) ""
                      +:+ "): (2)" +:+ newline);
              EvExit 1].
Proof. vm_compute. repeat split. Qed.

Example parent_gets_the_pid :
  forkAndExec (with_fork 4712 (system opens_all)) ["sh"] None child_process
  = (Ret 4712, child_process)
  ∧ forkAndExec (with_fork (-1) (system opens_all)) ["sh"] None child_process
    = (Ret (-1), child_process).
Proof. split; reflexivity. Qed.

Example failed_grantpt_throws :
  let (r, w') := openMaster (with_grantpt (λ _, Fail EIO) (system opens_all)) process in
  r = Throw (Exn unix_exception "grantpt(/dev/pts/3) failed: (5)") ∧
  trace w' = [EvOpen "/dev/ptmx" [O_RDWR] 3; EvPtsname 3; EvGrantpt 3].
Proof. vm_compute. repeat split. Qed.

(** * Further properties of the code *)

(** ** Allocation *)

Lemma first_not_busy (os : OS) (cs : list (ascii * ascii)) :
  cs ≠ [] →
  ∃ pre c post, cs = pre ++ c :: post ∧ forallb (busy os) pre = true
                ∧ (busy os c = false ∨ post = []).
Proof.
  induction cs as [|c cs IH]; [done|]. intros _.
  destruct (busy os c) eqn:Hc.
  - destruct cs as [|c' cs'].
    + exists [], c, []. by eauto.
    + destruct IH as (pre & c1 & post & Hsplit & Hpre & Hc1); [done|].
      exists (c :: pre), c1, post. rewrite Hsplit. simpl. rewrite Hc, Hpre. eauto.
  - exists [], c, cs. eauto.
Qed.

Lemma after_failed_open_ptyName (os : OS) (w : World) (c : ascii * ascii) (err : Z) :
  os_open os (master_path c) = Fail err →
  ptyName (after_failed_open os w c) = master_path c
  ∧ trace (after_failed_open os w c) = trace w ++ [failed_open c].
Proof. unfold after_failed_open. by intros ->. Qed.

(** A scan of the candidates [cs] stops at the first one that is not busy,
    or after the last one. *)
Lemma scan_then_classified (os : OS) (cs : list (ascii * ascii)) (w : World) :
  cs ≠ [] →
  ∃ pre c post r w',
    cs = pre ++ c :: post ∧
    forallb (busy os) pre = true ∧
    scan_then os cs (throw out_of_ptys) w = (r, w') ∧
    match os_open os (master_path c) with
    | Ok =>
        r = Ret (lowest_free (fds w)) ∧
        calls_since w w'
          = map failed_open pre
            ++ [EvOpen (master_path c) [O_RDWR] (lowest_free (fds w))] ∧
        ptyName w' = slave_path c
    | Fail err =>
        (err = ENOENT ∨ post = []) ∧
        r = Throw out_of_ptys ∧
        calls_since w w' = map failed_open (pre ++ [c]) ∧
        ptyName w' = master_path c ∧
        fds w' = fds w
    end.
Proof.
  intros Hcs.
  destruct (first_not_busy os cs Hcs) as (pre & c & post & Hsplit & Hbusy & Hc).
  exists pre, c, post. subst cs.
  rewrite scan_then_busy by done.
  pose proof (after_busy_trace os pre w Hbusy) as Htrace.
  destruct (after_busy_fds os pre w) as (Hfds & _ & _).
  set (w1 := foldl (after_failed_open os) w pre) in *.
  cbn [scan_then]. unfold bind.
  destruct (os_open os (master_path c)) as [|err] eqn:Hopen.
  - rewrite try_candidate_Ok by done. rewrite Hfds.
    set (w2 := set_ptyName (slave_path c) _).
    exists (Ret (lowest_free (fds w))), w2.
    split; [done|]. split; [done|]. split; [reflexivity|].
    split; [done|]. split; [|done].
    apply calls_since_app. subst w2. simpl. by rewrite Htrace, <- app_assoc.
  - destruct (after_failed_open_ptyName os w1 c err Hopen) as [Hname Htrace1].
    destruct (after_failed_open_fds os w1 c) as (Hfds1 & _ & _).
    assert (Hcalls : calls_since w (after_failed_open os w1 c)
                     = map failed_open (pre ++ [c])).
    { apply calls_since_app. by rewrite Htrace1, Htrace, map_app, <- app_assoc. }
    destruct (decide (err = ENOENT)) as [->|Hne].
    + rewrite try_candidate_ENOENT by done.
      eexists _, _. split; [done|]. split; [done|]. split; [reflexivity|].
      split; [by left|]. split; [done|]. split; [done|]. split; [done|].
      by rewrite Hfds1.
    + assert (Hbusy_c : busy os c = true).
      { unfold busy. rewrite Hopen. apply negb_true_iff, Z.eqb_neq, Hne. }
      destruct Hc as [Hc| ->]; [congruence|].
      rewrite try_candidate_busy by done. cbn [scan_then]. unfold throw.
      eexists _, _. split; [done|]. split; [done|]. split; [reflexivity|].
      split; [by right|]. split; [done|]. split; [done|]. split; [done|].
      by rewrite Hfds1.
Qed.

(** X1. The scan on every system: it opens the candidates in their order, each
    once, and stops at the first one that opens or that fails with ENOENT, or
    after the last one.  It makes at least one open and at most 256.  When it
    returns, [ptyName] is the slave of the master it opened; when it throws,
    no descriptor was added and [ptyName] is the master it tried last. *)
Theorem search_for_pty_opens_in_order (os : OS) (w : World) :
  ∃ pre c post r w',
    candidates = pre ++ c :: post ∧
    forallb (busy os) pre = true ∧
    search_for_pty os w = (r, w') ∧
    (0 < length (calls_since w w') ≤ 256)%nat ∧
    match os_open os (master_path c) with
    | Ok =>
        r = Ret (lowest_free (fds w)) ∧
        calls_since w w'
          = map failed_open pre
            ++ [EvOpen (master_path c) [O_RDWR] (lowest_free (fds w))] ∧
        ptyName w' = slave_path c
    | Fail err =>
        (err = ENOENT ∨ post = []) ∧
        r = Throw out_of_ptys ∧
        calls_since w w' = map failed_open (pre ++ [c]) ∧
        ptyName w' = master_path c ∧
        fds w' = fds w
    end.
Proof.
  destruct (scan_then_classified os candidates w)
    as (pre & c & post & r & w' & Hsplit & Hbusy & Hrun & Hr); [done|].
  exists pre, c, post, r, w'. rewrite search_for_pty_scan.
  split; [done|]. split; [done|]. split; [done|]. split; [|done].
  assert (Hlen : (length pre + 1 ≤ 256)%nat).
  { change 256%nat with (length candidates). rewrite Hsplit, length_app. simpl. lia. }
  destruct (os_open os (master_path c)).
  - destruct Hr as (_ & -> & _). rewrite length_app, length_map. simpl. lia.
  - destruct Hr as (_ & _ & -> & _). rewrite length_map, length_app. simpl. lia.
Qed.

(** X2. [openMaster] closes nothing and adds at most one descriptor, on every
    path: a descriptor that was open is still open, and the only descriptor
    that can be new is the lowest one that was free. *)
Theorem openMaster_never_closes (os : OS) (w : World) :
  ∃ r w', openMaster os w = (r, w') ∧
    fds w ⊆ fds w' ∧ fds w' ⊆ {[lowest_free (fds w)]} ∪ fds w.
Proof.
  destruct (openMaster_outcome os w) as (r & w' & Hrun & Hr).
  exists r, w'. split; [done|]. cbn zeta in Hr.
  destruct r as [m|e| |status]; try done.
  - destruct Hr as (_ & _ & -> & _). split; [apply union_subseteq_r|done].
  - destruct Hr as [_ Hr]. destruct (os_open os "/dev/ptmx").
    + destruct Hr as [-> _]. split; [apply union_subseteq_r|done].
    + rewrite Hr. split; [done|apply union_subseteq_r].
Qed.

(** X3. Every exception [openMaster] throws is a [std::runtime_error] or a
    [unix_exception]: a caller's [catch (const std::exception&)] takes it.
    A failed [openMaster] leaves [masterFd] as it was. *)
Theorem openMaster_throws_what_a_caller_catches (os : OS) (w : World) :
  ∃ r w', openMaster os w = (r, w') ∧
    match r with
    | Ret m => masterFd w' = m
    | Throw e =>
        (exn_class e = std_runtime_error ∨ exn_class e = unix_exception) ∧
        handler_matches std_exception (exn_class e) = true ∧
        masterFd w' = masterFd w
    | _ => False
    end.
Proof.
  unfold openMaster, bind.
  destruct (os_open os "/dev/ptmx") as [|err] eqn:Hopen.
  - rewrite ptym_open_primary by done. cbn zeta.
    destruct (os_ptsname os _) as [name|err];
      [destruct (os_grantpt os _) as [|err];
         [destruct (os_unlockpt os _) as [|err]|]|];
      eexists _, _; (split; [reflexivity|]); cbn [exn_class]; eauto.
  - rewrite (ptym_open_fallback os w err Hopen), search_for_pty_scan.
    destruct (scan_then_outcome os candidates
                (set_errno err (log (EvOpen "/dev/ptmx" [O_RDWR] (-1)) w)))
      as (r & w' & -> & Hm & Hr).
    destruct r as [fdm|e| |status]; try done; eexists _, _;
      (split; [reflexivity|]); [done|].
    destruct Hr as [-> _]. cbn [exn_class out_of_ptys new_runtime_error]. eauto.
Qed.

(** X4. What a failed [openMaster] leaves in [ptyName], which [getSlavePtyName]
    returns: after a failed scan, the path of a master ([/dev/ptyXY]), not of
    a slave; after a failed lookup of the slave name, what it was; after a
    failed grant or unlock, the slave name of the multiplexer. *)
Theorem openMaster_failure_leaves_ptyName (os : OS) (w : World) :
  ∃ r w', openMaster os w = (r, w') ∧
    match r with
    | Throw _ =>
        match os_open os "/dev/ptmx" with
        | Fail _ => ∃ c, c ∈ candidates ∧ getSlavePtyName w' = (Ret (master_path c), w')
        | Ok =>
            match os_ptsname os (lowest_free (fds w)) with
            | inr _ => getSlavePtyName w' = (Ret (ptyName w), w')
            | inl name => getSlavePtyName w' = (Ret name, w')
            end
        end
    | _ => True
    end.
Proof.
  unfold openMaster, bind.
  destruct (os_open os "/dev/ptmx") as [|err] eqn:Hopen.
  - rewrite ptym_open_primary by done. cbn zeta.
    destruct (os_ptsname os _) as [name|err];
      [destruct (os_grantpt os _) as [|err];
         [destruct (os_unlockpt os _) as [|err]|]|];
      eexists _, _; (split; [reflexivity|]); done.
  - rewrite (ptym_open_fallback os w err Hopen), search_for_pty_scan.
    destruct (scan_then_classified os candidates
                (set_errno err (log (EvOpen "/dev/ptmx" [O_RDWR] (-1)) w)))
      as (pre & c & post & r & w' & Hsplit & _ & -> & Hr); [done|].
    assert (Hin : c ∈ candidates).
    { rewrite Hsplit. apply elem_of_app. right. by left. }
    destruct (os_open os (master_path c)).
    + destruct Hr as (-> & _). by eexists _, _.
    + destruct Hr as (_ & -> & _ & Hname & _). eexists _, _.
      split; [reflexivity|]. exists c. split; [done|].
      unfold getSlavePtyName, gets. by rewrite Hname.
Qed.

(** ** The child *)

Lemma rets_bind {A B} (m : M A) (k : A → M B) (w : World)
    (Q : A → World → Prop) (Φ : Outcome B * World → Prop) :
  rets m w Q → (∀ a w1, Q a w1 → Φ (k a w1)) → Φ (bind m k w).
Proof.
  intros (a & w1 & Hm & HQ) Hk. unfold bind. rewrite Hm. by apply Hk.
Qed.

Lemma bind_ret {A B} (a : A) (k : A → M B) (w : World) :
  bind (ret a) k w = k a w.
Proof. done. Qed.

Lemma rets_answer (e : Event) (r : sysret) (w0 w : World) (calls : list Event)
    (name : string) (open : gset Z) (env : gmap string string) :
  reached w0 calls name open env w →
  rets (answer e r) w
    (λ v w1, v = (if is_ok r then 0 else -1) ∧ masterFd w1 = masterFd w
             ∧ reached w0 (calls ++ [e]) name open env w1).
Proof.
  intros (Htrace & Hname & Hfds & Henv). eexists _, _. split; [apply answer_eq|].
  destruct (after_answer_unchanged e r w) as (Hn & Hm & Hf & He & Ht).
  unfold reached. rewrite Hn, Hm, Hf, He, Ht, Htrace, <- app_assoc.
  by destruct r.
Qed.

Lemma after_closes_tables (l : list Z) (w : World) :
  ptyName (after_closes w l) = ptyName w
  ∧ fds (after_closes w l) = fds w ∖ list_to_set l.
Proof.
  split.
  - revert w. induction l as [|x l IH]; intros w; [done|].
    unfold after_closes. cbn [foldl].
    fold (after_closes (log (EvClose x) (set_fds (fds w ∖ {[x]}) w)) l).
    by rewrite IH.
  - destruct (after_closes_spec l w) as (_ & _ & Hfds).
    apply set_eq. intros fd. rewrite Hfds, elem_of_difference, elem_of_list_to_set.
    done.
Qed.

Lemma rebound_elem (childFd slot : Z) (open : gset Z) (fd : Z) :
  childFd ∈ open →
  fd ∈ rebound childFd slot open ↔ fd ∈ open ∨ fd = slot.
Proof.
  intros Hchild. unfold rebound. destruct (childFd =? slot) eqn:Heq.
  - apply Z.eqb_eq in Heq as <-. split; [by left|]. by intros [?| ->].
  - rewrite elem_of_union, elem_of_singleton. tauto.
Qed.

(** The descriptors left when the steps on descriptors are over. *)
Lemma standard_descriptors_left (open : gset Z) (childFd master : Z) (listed : list Z) :
  (∀ fd, fd ∈ open → 0 ≤ fd) →
  open ⊆ list_to_set listed →
  master ∈ open →
  childFd ∉ open →
  0 ≤ childFd →
  let open1 := ({[childFd]} ∪ open) ∖ {[master]} in
  let open4 := rebound childFd STDERR_FILENO
                 (rebound childFd STDOUT_FILENO
                    (rebound childFd STDIN_FILENO open1)) in
  let open5 := if STDERR_FILENO <? childFd then open4 ∖ {[childFd]} else open4 in
  open5 ∖ list_to_set (List.filter (Z.ltb 2) listed) = {[0; 1; 2]}.
Proof.
  intros Hvalid Hlisted Hmaster Hfree Hchild open1 open4 open5.
  assert (Hne : childFd ≠ master) by (intros ->; done).
  assert (Hc1 : childFd ∈ open1).
  { subst open1. rewrite elem_of_difference, elem_of_union, !elem_of_singleton. tauto. }
  assert (H2 : ∀ fd, fd ∈ rebound childFd 0 open1 ↔ fd ∈ open1 ∨ fd = 0).
  { intros fd. by apply rebound_elem. }
  assert (Hc2 : childFd ∈ rebound childFd 0 open1) by (apply H2; by left).
  assert (H3 : ∀ fd, fd ∈ rebound childFd 1 (rebound childFd 0 open1)
                     ↔ fd ∈ rebound childFd 0 open1 ∨ fd = 1).
  { intros fd. by apply rebound_elem. }
  assert (Hc3 : childFd ∈ rebound childFd 1 (rebound childFd 0 open1)).
  { apply H3. by left. }
  assert (H4 : ∀ fd, fd ∈ open4 ↔ fd ∈ open1 ∨ fd = 0 ∨ fd = 1 ∨ fd = 2).
  { intros fd. subst open4. unfold STDIN_FILENO, STDOUT_FILENO, STDERR_FILENO.
    rewrite rebound_elem, H3, H2 by done. tauto. }
  assert (H5 : ∀ fd, fd ∈ open5 ↔ fd ∈ open4 ∧ ¬ (2 < childFd ∧ fd = childFd)).
  { intros fd. subst open5. unfold STDERR_FILENO.
    destruct (2 <? childFd) eqn:Hlt.
    - apply Z.ltb_lt in Hlt. rewrite elem_of_difference, elem_of_singleton. tauto.
    - apply Z.ltb_ge in Hlt. split; [|tauto]. intros Hfd. split; [done|]. lia. }
  apply set_eq. intros fd.
  rewrite elem_of_difference, elem_of_list_to_set, list_elem_of_In, filter_In,
    <- list_elem_of_In, Z.ltb_lt, H5, H4.
  subst open1. rewrite elem_of_difference, !elem_of_union, !elem_of_singleton.
  split.
  - intros [[[[[Hfd|Hfd] Hm]|Hstd] Hclose] Hclosed].
    + subst fd. lia.
    + assert (0 ≤ fd) by by apply Hvalid.
      assert (fd ∈ listed) by (apply Hlisted in Hfd; by apply elem_of_list_to_set in Hfd).
      destruct (decide (2 < fd)); [tauto|lia].
    + lia.
  - intros Hstd. split; [split|]; [tauto|lia|lia].
Qed.


(** With the master open, no negative number and an enumeration that names
    the descriptors that were open, the steps on descriptors leave 0, 1 and
    2 open and nothing else. *)
Lemma descriptors_0_1_2 (os : OS) (w : World) :
  masterFd w ∈ fds w →
  descriptors_valid w = true →
  lists_open_descriptors os w = true →
  slave_on_standard w ∖ list_to_set (closed_fds os) = {[0; 1; 2]}.
Proof.
  intros Hmaster Hvalid Hlisted. unfold slave_on_standard, closed_fds.
  apply standard_descriptors_left.
  - intros fd Hfd. unfold descriptors_valid in Hvalid.
    rewrite forallb_forall in Hvalid. apply Z.leb_le, Hvalid.
    by apply list_elem_of_In, elem_of_elements.
  - by apply bool_decide_eq_true in Hlisted.
  - done.
  - apply lowest_free_not_in.
  - apply lowest_free_nonneg.
Qed.

Section Success.
Variable os : OS.

Lemma rets_rebind (childFd slot : Z) (slot_name : string) (w0 w : World)
    (calls : list Event) (name : string) (open : gset Z)
    (env : gmap string string) :
  (childFd =? slot) || is_ok (os_dup2 os childFd slot) = true →
  reached w0 calls name open env w →
  rets (rebind os childFd slot slot_name) w
    (λ _ w1, reached w0 (calls ++ rebind_calls childFd slot) name
               (rebound childFd slot open) env w1).
Proof.
  intros Hok (Htrace & Hname & Hfds & Henv).
  unfold rebind, rebound, rebind_calls, rets.
  destruct (childFd =? slot); simpl in *.
  - eexists _, _. split; [reflexivity|]. by rewrite app_nil_r.
  - unfold bind, sys_dup2. destruct (os_dup2 os childFd slot); [|done].
    rewrite Z.eqb_refl. simpl. eexists _, _. split; [reflexivity|].
    unfold reached. simpl. rewrite Htrace, <- app_assoc.
    repeat split; congruence.
Qed.

Lemma rets_closeUnusedFiles (w0 w : World) (calls : list Event) (name : string)
    (open : gset Z) (env : gmap string string) :
  reached w0 calls name open env w →
  rets (closeUnusedFiles os) w
    (λ _ w1, reached w0
               (calls ++ EvReaddir (fdDirectory os) :: map EvClose (closed_fds os))
               name (open ∖ list_to_set (closed_fds os)) env w1).
Proof.
  intros (Htrace & Hname & Hfds & Henv).
  unfold rets, closeUnusedFiles, bind, sys_readdir.
  rewrite collect_fds_filter, close_fds_eval. cbn [app]. fold (closed_fds os).
  destruct (after_closes_spec (closed_fds os) (log (EvReaddir (fdDirectory os)) w))
    as (Htrace' & Henv' & _).
  destruct (after_closes_tables (closed_fds os) (log (EvReaddir (fdDirectory os)) w))
    as (Hname' & Hfds').
  eexists _, _. split; [reflexivity|].
  repeat split; [|by rewrite Hname'|by rewrite Hfds', <- Hfds|by rewrite Henv'].
  rewrite Htrace'. cbn [trace log]. rewrite Htrace, <- !app_assoc. done.
Qed.

Lemma rets_fixEnvironment (w0 w : World) (calls : list Event) (name : string)
    (open : gset Z) (env : gmap string string) :
  reached w0 calls name open env w →
  rets (fixEnvironment os) w
    (λ _ w1, reached w0 (calls ++ environment_calls os) name open
               (fixed_environ os env) w1).
Proof.
  intros (Htrace & Hname & Hfds & Henv).
  unfold rets, fixEnvironment, fixed_environ, environment_calls, bind, putenv,
    unsetenv, modify.
  destruct (defined_APPLE os); eexists _, _; (split; [reflexivity|]);
    (split; [|repeat split; simpl; congruence]);
    simpl; rewrite Htrace, <- !app_assoc; done.
Qed.

Lemma rets_signal_dfl (sig : signum) (w0 w : World) (calls : list Event)
    (name : string) (open : gset Z) (env : gmap string string) :
  reached w0 calls name open env w →
  rets (signal_dfl sig) w
    (λ _ w1, reached w0 (calls ++ [EvSignalDfl sig]) name open env w1).
Proof.
  intros (Htrace & Hname & Hfds & Henv). eexists _, _. split; [reflexivity|].
  unfold reached. simpl. rewrite Htrace, <- app_assoc.
  repeat split; congruence.
Qed.

(** [runChild] when every call it checks before [execvp] succeeds: it comes
    to [execvp], after the calls of the bootstrap that precede it. *)
Lemma runChild_reaches_execvp (cmd : list string)
    (workingDirectory : option string) (w : World) :
  steps_succeed os w workingDirectory = true →
  ∃ w1, runChild os cmd workingDirectory w = exec_or_throw os cmd w1
        ∧ trace w1 ++ [EvExecvp (hd "" cmd) cmd]
          = trace w ++ bootstrap_calls os w cmd workingDirectory
        ∧ ptyName w1 = ptyName w
        ∧ fds w1 = slave_on_standard w ∖ list_to_set (closed_fds os)
        ∧ environ w1 = fixed_environ os (environ w).
Proof.
  unfold steps_succeed. cbn zeta.
  rewrite !andb_true_iff.
  intros ((((((Hchdir & Hsetsid) & Hopen) & Hioctl) & Hdup0) & Hdup1) & Hdup2).
  unfold runChild, bootstrap_calls, slave_on_standard. cbn zeta.
  set (childFd := lowest_free (fds w)) in *.
  apply rets_bind
    with (Q := λ _ w1, masterFd w1 = masterFd w
                       ∧ reached w (chdir_calls workingDirectory)
                           (ptyName w) (fds w) (environ w) w1).
  { destruct workingDirectory as [dir|].
    - simpl in Hchdir. apply bool_decide_eq_true in Hchdir.
      unfold rets, bind, sys_chdir. rewrite answer_eq, Hchdir. simpl.
      by eexists _, _.
    - eexists _, _. split; [reflexivity|]. split; [done|].
      repeat split. simpl. by rewrite app_nil_r. }
  intros ? w1 (Hm1 & Ht1); cbv beta in Ht1.
  eapply rets_bind; [by eapply rets_answer|].
  intros v w2 (-> & Hm2 & Ht2).
  destruct (os_setsid os); [|done]. cbn [is_ok Z.ltb Z.compare].
  rewrite bind_ret.
  apply rets_bind
    with (Q := λ fd w3,
            fd = childFd
            ∧ reached w
                ((chdir_calls workingDirectory ++ [EvSetsid])
                 ++ (chown_chmod_calls os (ptyName w)
                     ++ [EvOpen (ptyName w) [O_RDWR; O_NOCTTY] childFd;
                         EvClose (masterFd w)]))
                (ptyName w) (({[childFd]} ∪ fds w) ∖ {[masterFd w]})
                (environ w) w3).
  { unfold rets. rewrite openSlaveAndCloseMaster_eval. cbn zeta.
    destruct Ht2 as (Htrace2 & Hname2 & Hfds2 & Henv2).
    destruct (after_chown_chmod_unchanged os w2) as (Hn & _ & Hf & He & Htr).
    rewrite Hname2. destruct (os_open os (ptyName w)); [|done].
    eexists _, _. split; [reflexivity|]. rewrite Hfds2, Hm2, Hm1.
    split; [done|]. repeat split; simpl; try congruence.
    rewrite Htr, Htrace2, Hname2, <- !app_assoc. done. }
  intros ? w3 (-> & Ht3).
  apply rets_bind
    with (Q := λ _ w4,
            reached w
              (((chdir_calls workingDirectory ++ [EvSetsid])
                ++ (chown_chmod_calls os (ptyName w)
                    ++ [EvOpen (ptyName w) [O_RDWR; O_NOCTTY] childFd;
                        EvClose (masterFd w)]))
               ++ (if defined_TIOCSCTTY os then [EvIoctl childFd TIOCSCTTY] else []))
              (ptyName w) (({[childFd]} ∪ fds w) ∖ {[masterFd w]})
              (environ w) w4).
  { destruct (defined_TIOCSCTTY os).
    - simpl in Hioctl. unfold rets, sys_ioctl.
      eapply rets_bind; [by eapply rets_answer|].
      intros v w4 (-> & _ & Ht4). rewrite Hioctl. by eexists _, _.
    - eexists _, _. split; [reflexivity|]. by rewrite app_nil_r. }
  intros ? w4 Ht4; cbv beta in Ht4.
  apply rets_bind
    with (Q := λ _ w5,
            reached w
              ((((chdir_calls workingDirectory ++ [EvSetsid])
                 ++ (chown_chmod_calls os (ptyName w)
                     ++ [EvOpen (ptyName w) [O_RDWR; O_NOCTTY] childFd;
                         EvClose (masterFd w)]))
                ++ (if defined_TIOCSCTTY os then [EvIoctl childFd TIOCSCTTY] else []))
               ++ (if defined_sun os
                   then [EvIoctl childFd (I_PUSH "ptem");
                         EvIoctl childFd (I_PUSH "ldterm");
                         EvIoctl childFd (I_PUSH "ttcompat")]
                   else []))
              (ptyName w) (({[childFd]} ∪ fds w) ∖ {[masterFd w]})
              (environ w) w5).
  { destruct (defined_sun os).
    - unfold rets, sys_ioctl.
      eapply rets_bind; [by eapply rets_answer|]. intros ? w5 (_ & _ & Ht5).
      eapply rets_bind; [by eapply rets_answer|]. intros ? w6 (_ & _ & Ht6).
      eapply rets_bind; [by eapply rets_answer|]. intros ? w7 (_ & _ & Ht7).
      eexists _, _. split; [reflexivity|].
      destruct Ht7 as (Htr & Hn & Hf & He). unfold reached.
      rewrite Htr, <- !app_assoc. done.
    - eexists _, _. split; [reflexivity|]. by rewrite app_nil_r. }
  intros ? w5 Ht5; cbv beta in Ht5.
  eapply rets_bind; [by eapply rets_rebind|]. intros ? w6 Ht6; cbv beta in Ht6.
  eapply rets_bind; [by eapply rets_rebind|]. intros ? w7 Ht7; cbv beta in Ht7.
  eapply rets_bind; [by eapply rets_rebind|]. intros ? w8 Ht8; cbv beta in Ht8.
  set (open4 := rebound childFd STDERR_FILENO _) in *.
  match type of Ht8 with reached _ ?c _ _ _ _ => set (calls8 := c) in * end.
  apply rets_bind
    with (Q := λ _ w9,
            reached w
              (calls8 ++ (if STDERR_FILENO <? childFd then [EvClose childFd] else []))
              (ptyName w)
              (if STDERR_FILENO <? childFd then open4 ∖ {[childFd]} else open4)
              (environ w) w9).
  { destruct Ht8 as (Htr & Hn & Hf & He). unfold reached.
    destruct (STDERR_FILENO <? childFd); eexists _, _; (split; [reflexivity|]);
      simpl; rewrite ?app_nil_r, Htr, <- ?app_assoc; repeat split; congruence. }
  intros ? w9 Ht9; cbv beta in Ht9.
  eapply rets_bind; [by eapply rets_closeUnusedFiles|].
  intros ? w10 Ht10; cbv beta in Ht10.
  eapply rets_bind; [by eapply rets_fixEnvironment|].
  intros ? w11 Ht11; cbv beta in Ht11.
  eapply rets_bind; [by eapply rets_signal_dfl|]. intros ? w12 Ht12; cbv beta in Ht12.
  eapply rets_bind; [by eapply rets_signal_dfl|]. intros ? w13 Ht13; cbv beta in Ht13.
  eapply rets_bind; [by eapply rets_signal_dfl|]. intros ? w14 Ht14; cbv beta in Ht14.
  exists w14. split; [reflexivity|].
  destruct Ht14 as (Htrace & Hname & Hfds & Henv).
  split; [|done]. rewrite Htrace. subst calls8. by rewrite <- !app_assoc.
Qed.
End Success.

(** X5. In a child whose checked calls all succeed, [forkAndExec] ends in the
    replacement of the program by [execvp], after the calls of the bootstrap
    in their order.  If the master is open, no descriptor number is negative
    and the enumeration of the descriptor directory names every descriptor
    the child inherited, the new program starts with the descriptors 0, 1 and
    2 and no other; its environment is the one [fixEnvironment] leaves. *)
Theorem forkAndExec_child_replaces_program (os : OS) (cmd : list string)
    (workingDirectory : option string) (w : World) :
  os_fork os = 0 →
  masterFd w ∈ fds w →
  descriptors_valid w = true →
  lists_open_descriptors os w = true →
  bootstrap_succeeds os w cmd workingDirectory = true →
  ∃ w', forkAndExec os cmd workingDirectory w = (Replaced, w')
        ∧ calls_since w w' = bootstrap_calls os w cmd workingDirectory
        ∧ fds w' = {[0; 1; 2]}
        ∧ environ w' = fixed_environ os (environ w)
        ∧ ptyName w' = ptyName w.
Proof.
  intros Hfork Hmaster Hvalid Hlisted Hok.
  apply andb_true_iff in Hok as [Hsteps Hexec].
  rewrite forkAndExec_child by done.
  destruct (runChild_reaches_execvp os cmd workingDirectory w Hsteps)
    as (w1 & -> & Htrace & Hname & Hfds & Henv).
  unfold exec_or_throw, bind, sys_execvp. cbn zeta.
  destruct (os_execvp os (hd "" cmd) cmd); [|done].
  eexists. split; [reflexivity|]. cbn [fds environ ptyName log].
  split; [by apply calls_since_app|]. split; [|done].
  rewrite Hfds. by apply descriptors_0_1_2.
Qed.

Lemma forkAndExec_child_replaces_program_witness :
  ∃ w', forkAndExec (system opens_all) ["sh"] (Some "/home/user") child_process
        = (Replaced, w')
        ∧ calls_since child_process w'
          = bootstrap_calls (system opens_all) child_process ["sh"] (Some "/home/user")
        ∧ fds w' = {[0; 1; 2]}
        ∧ environ w' = fixed_environ (system opens_all) (environ child_process)
        ∧ ptyName w' = ptyName child_process.
Proof.
  apply (forkAndExec_child_replaces_program (system opens_all) ["sh"]
           (Some "/home/user") child_process); vm_compute; reflexivity.
Defined.

(** X6. In a child in which [execvp] fails after every call before it succeeded,
    [forkAndExec] makes all the calls of the bootstrap, prints the text
    "Can't execute '<program>'" with the error of [execvp] on standard error,
    which is the slave by then, and exits with status 1. *)
Theorem forkAndExec_child_failed_execvp (os : OS) (cmd : list string)
    (workingDirectory : option string) (w : World) (err : Z) :
  os_fork os = 0 →
  masterFd w ∈ fds w →
  descriptors_valid w = true →
  lists_open_descriptors os w = true →
  steps_succeed os w workingDirectory = true →
  os_execvp os (hd "" cmd) cmd = Fail err →
  ∃ w', forkAndExec os cmd workingDirectory w = (Exited 1, w')
        ∧ calls_since w w'
          = bootstrap_calls os w cmd workingDirectory
            ++ [EvCerr ((("Can't execute '" +:+ hd "" cmd +:+ "'")
                         +:+ os_strerror os err) +:+ newline);
                EvExit 1]
        ∧ fds w' = {[0; 1; 2]}.
Proof.
  intros Hfork Hmaster Hvalid Hlisted Hsteps Hexec.
  rewrite forkAndExec_child by done.
  destruct (runChild_reaches_execvp os cmd workingDirectory w Hsteps)
    as (w1 & -> & Htrace & Hname & Hfds & Henv).
  unfold exec_or_throw. cbn zeta. rewrite (failed_execvp_throws os cmd w1 err Hexec).
  cbn [exn_class what handler_matches]. 
  change (handler_matches std_exception unix_exception) with true. cbv iota.
  eexists. split; [reflexivity|]. cbn [fds log set_errno].
  split; [|rewrite Hfds; by apply descriptors_0_1_2].
  apply calls_since_app. cbn [trace log set_errno].
  rewrite (app_assoc (trace w)), <- Htrace, <- !app_assoc. done.
Qed.

Lemma forkAndExec_child_failed_execvp_witness :
  ∃ w', forkAndExec (with_execvp (λ _ _, Fail ENOENT) (system opens_all))
          ["nosuchprogram"; "-l"] None child_process = (Exited 1, w')
        ∧ calls_since child_process w'
          = bootstrap_calls (with_execvp (λ _ _, Fail ENOENT) (system opens_all))
              child_process ["nosuchprogram"; "-l"] None
            ++ [EvCerr ((("Can't execute '" +:+ hd "" ["nosuchprogram"; "-l"] +:+ "'")
                         +:+ os_strerror
                               (with_execvp (λ _ _, Fail ENOENT) (system opens_all))
                               ENOENT) +:+ newline);
                EvExit 1]
        ∧ fds w' = {[0; 1; 2]}.
Proof.
  apply (forkAndExec_child_failed_execvp
           (with_execvp (λ _ _, Fail ENOENT) (system opens_all))
           ["nosuchprogram"; "-l"] None child_process ENOENT);
    vm_compute; reflexivity.
Defined.


(** X8. [forkAndExec] returns to its caller in the parent only.  There it
    returns the process id of the child, or -1 when [fork] failed, and it has
    made no call and changed nothing of the object.  In the child it returns
    no value, whatever the calls of the bootstrap answer. *)
Theorem forkAndExec_returns_only_in_parent (os : OS) (cmd : list string)
    (workingDirectory : option string) (w : World) :
  ∃ r w', forkAndExec os cmd workingDirectory w = (r, w') ∧
    if os_fork os =? 0 then ∀ pid, r ≠ Ret pid
    else r = Ret (if os_fork os <? 0 then -1 else os_fork os) ∧ w' = w.
Proof.
  destruct (os_fork os =? 0) eqn:Hfork.
  - apply Z.eqb_eq in Hfork. rewrite forkAndExec_child by done.
    destruct (runChild_runs os cmd workingDirectory w) as (r & w' & -> & Hr).
    destruct r as [[]|e| |status]; [by destruct Hr| | |done].
    + destruct (handler_matches std_exception (exn_class e));
        by eexists _, _.
    + by eexists _, _.
  - apply Z.eqb_neq in Hfork. rewrite forkAndExec_parent by done.
    by eexists _, _.
Qed.

(** X9. In a child in which [chdir] to the working directory fails,
    [forkAndExec] makes no other call of the bootstrap: the slave is not
    opened and the master is not closed.  The child prints "Error from
    child: chdir(<directory in quotes>)" with the error of [chdir] on
    standard error, and exits with status 1. *)
Theorem forkAndExec_child_failed_chdir (os : OS) (cmd : list string)
    (dir : string) (w : World) (err : Z) :
  os_fork os = 0 →
  os_chdir os dir = Fail err →
  ∃ w', forkAndExec os cmd (Some dir) w = (Exited 1, w')
        ∧ calls_since w w'
          = [EvChdir dir;
             EvCerr ((("Error from child: "
                       +:+ ("chdir(" +:+ String (ascii_of_nat 34) "" +:+ dir
                            +:+ String (ascii_of_nat 34) "" +:+ ")"))
                      +:+ os_strerror os err) +:+ newline);
             EvExit 1]
        ∧ fds w' = fds w.
Proof.
  intros Hfork Hchdir. rewrite forkAndExec_child by done.
  unfold runChild, bind at 1 2, sys_chdir. rewrite answer_eq, Hchdir.
  cbn [Z.ltb Z.compare]. 
  unfold bind, new_child_exception, new_unix_exception, throw.
  cbn [exn_class what errno after_answer set_errno log].
  change (handler_matches std_exception child_exception) with true. cbv iota.
  eexists. split; [reflexivity|]. split; [|done].
  apply calls_since_app. cbn [trace log set_errno]. by rewrite <- !app_assoc.
Qed.

Lemma forkAndExec_child_failed_chdir_witness :
  ∃ w', forkAndExec (with_chdir (λ _, Fail ENOENT) (system opens_all))
          ["sh"] (Some "/nosuchdir") child_process = (Exited 1, w')
        ∧ calls_since child_process w'
          = [EvChdir "/nosuchdir";
             EvCerr ((("Error from child: "
                       +:+ ("chdir(" +:+ String (ascii_of_nat 34) "" +:+ "/nosuchdir"
                            +:+ String (ascii_of_nat 34) "" +:+ ")"))
                      +:+ os_strerror (with_chdir (λ _, Fail ENOENT) (system opens_all))
                            ENOENT) +:+ newline);
             EvExit 1]
        ∧ fds w' = fds child_process.
Proof.
  apply (forkAndExec_child_failed_chdir
           (with_chdir (λ _, Fail ENOENT) (system opens_all)) ["sh"] "/nosuchdir"
           child_process ENOENT); reflexivity.
Defined.

(** X10. In a child in which [setsid] fails, after [chdir] succeeded where a
    directory is asked for, [forkAndExec] makes no later call of the
    bootstrap: the slave is not opened and the master is not closed.  The
    child prints "Error from child: setsid()" with the error of [setsid] on
    standard error, and exits with status 1. *)
Theorem forkAndExec_child_failed_setsid (os : OS) (cmd : list string)
    (workingDirectory : option string) (w : World) (err : Z) :
  os_fork os = 0 →
  chdir_succeeds os workingDirectory = true →
  os_setsid os = Fail err →
  ∃ w', forkAndExec os cmd workingDirectory w = (Exited 1, w')
        ∧ calls_since w w'
          = chdir_calls workingDirectory
            ++ [EvSetsid;
                EvCerr ((("Error from child: " +:+ "setsid()")
                         +:+ os_strerror os err) +:+ newline);
                EvExit 1]
        ∧ fds w' = fds w.
Proof.
  intros Hfork Hchdir Hsetsid. rewrite forkAndExec_child by done.
  unfold runChild.
  apply rets_bind
    with (Q := λ _ w1, reached w (chdir_calls workingDirectory)
                         (ptyName w) (fds w) (environ w) w1).
  { destruct workingDirectory as [dir|].
    - simpl in Hchdir. apply bool_decide_eq_true in Hchdir.
      unfold rets, bind, sys_chdir. rewrite answer_eq, Hchdir. simpl.
      by eexists _, _.
    - eexists _, _. split; [reflexivity|]. unfold reached. simpl.
      by rewrite app_nil_r. }
  intros ? w1 (Htrace & Hname & Hfds & Henv).
  unfold bind at 1, sys_setsid. rewrite answer_eq, Hsetsid.
  cbn [Z.ltb Z.compare].
  unfold bind, new_child_exception, new_unix_exception, throw.
  cbn [exn_class what errno after_answer set_errno log].
  change (handler_matches std_exception child_exception) with true. cbv iota.
  eexists. split; [reflexivity|]. split; [|done].
  apply calls_since_app. cbn [trace log set_errno].
  rewrite Htrace, <- !app_assoc. done.
Qed.

Lemma forkAndExec_child_failed_setsid_witness :
  ∃ w', forkAndExec (with_setsid (Fail EPERM) (system opens_all))
          ["sh"] (Some "/home/user") child_process = (Exited 1, w')
        ∧ calls_since child_process w'
          = chdir_calls (Some "/home/user")
            ++ [EvSetsid;
                EvCerr ((("Error from child: " +:+ "setsid()")
                         +:+ os_strerror (with_setsid (Fail EPERM) (system opens_all))
                               EPERM) +:+ newline);
                EvExit 1]
        ∧ fds w' = fds child_process.
Proof.
  apply (forkAndExec_child_failed_setsid
           (with_setsid (Fail EPERM) (system opens_all)) ["sh"]
           (Some "/home/user") child_process EPERM); reflexivity.
Defined.

(** ** [openSlaveAndCloseMaster] on any object *)

(** X11. [openSlaveAndCloseMaster] closes the number stored in [masterFd] and
    leaves it stored: [masterFd], the name and the environment are as they
    were.  The descriptor it returns is the lowest free number, and it is
    open afterwards unless that number is the one stored in [masterFd], which
    the function then closes. *)
Theorem openSlaveAndCloseMaster_keeps_masterFd (os : OS) (w : World) :
  ∃ r w', openSlaveAndCloseMaster os w = (r, w')
    ∧ masterFd w' = masterFd w
    ∧ ptyName w' = ptyName w
    ∧ environ w' = environ w
    ∧ match r with
      | Ret fd =>
          os_open os (ptyName w) = Ok
          ∧ fd = lowest_free (fds w)
          ∧ (fd ∈ fds w' ↔ masterFd w ≠ fd)
          ∧ ∀ fd', fd' ≠ fd → (fd' ∈ fds w' ↔ fd' ∈ fds w ∧ fd' ≠ masterFd w)
      | Throw e =>
          os_open os (ptyName w) ≠ Ok
          ∧ exn_class e = unix_exception
          ∧ fds w' = fds w
      | _ => False
      end.
Proof.
  rewrite openSlaveAndCloseMaster_eval. cbn zeta.
  destruct (after_chown_chmod_unchanged os w) as (Hname & Hm & Hfds & Henv & _).
  destruct (os_open os (ptyName w)) as [|err]; eexists _, _;
    (split; [reflexivity|]); cbn [masterFd ptyName environ fds log set_fds set_errno].
  - split; [done|]. split; [done|]. split; [done|]. split; [done|].
    split; [done|]. split.
    + rewrite elem_of_difference, elem_of_union, !elem_of_singleton.
      split; [intros [_ Hne]; congruence|]. intros Hne. split; [by left|congruence].
    + intros fd' Hne.
      rewrite elem_of_difference, elem_of_union, !elem_of_singleton. tauto.
  - by repeat split.
Qed.

(** X12. [openSlaveAndCloseMaster] called when the number stored in
    [masterFd] is free, as after a first call, and is the lowest free number:
    the slave is opened with that number and closed at once, so the
    descriptor returned is not open, and the open descriptors are those of
    before. *)
Theorem openSlaveAndCloseMaster_closes_the_slave (os : OS) (w : World) :
  masterFd w = lowest_free (fds w) →
  os_open os (ptyName w) = Ok →
  ∃ w', openSlaveAndCloseMaster os w = (Ret (masterFd w), w')
    ∧ calls_since w w'
      = chown_chmod_calls os (ptyName w)
        ++ [EvOpen (ptyName w) [O_RDWR; O_NOCTTY] (masterFd w);
            EvClose (masterFd w)]
    ∧ (masterFd w ∉ fds w')
    ∧ fds w' = fds w.
Proof.
  intros Hm Hopen. rewrite openSlaveAndCloseMaster_eval. cbn zeta.
  rewrite Hopen, <- Hm.
  destruct (after_chown_chmod_unchanged os w) as (_ & _ & _ & _ & Htrace).
  pose proof (lowest_free_not_in (fds w)) as Hfree. rewrite <- Hm in Hfree.
  eexists. split; [reflexivity|]. cbn [fds log set_fds].
  assert (Hfds : ({[masterFd w]} ∪ fds w) ∖ {[masterFd w]} = fds w).
  { apply set_eq. intros fd.
    rewrite elem_of_difference, elem_of_union, !elem_of_singleton.
    split; [tauto|]. intros Hfd. split; [by right|]. by intros ->. }
  split; [|by rewrite Hfds].
  apply calls_since_app. cbn [trace log set_fds]. rewrite Htrace, <- !app_assoc.
  done.
Qed.

Lemma openSlaveAndCloseMaster_closes_the_slave_witness :
  ∃ w', openSlaveAndCloseMaster (system opens_all) child_after_first_open
        = (Ret (masterFd child_after_first_open), w')
    ∧ calls_since child_after_first_open w'
      = chown_chmod_calls (system opens_all) (ptyName child_after_first_open)
        ++ [EvOpen (ptyName child_after_first_open) [O_RDWR; O_NOCTTY]
              (masterFd child_after_first_open);
            EvClose (masterFd child_after_first_open)]
    ∧ (masterFd child_after_first_open ∉ fds w')
    ∧ fds w' = fds child_after_first_open.
Proof.
  apply (openSlaveAndCloseMaster_closes_the_slave (system opens_all)
           child_after_first_open); reflexivity.
Defined.

(** ** [fixEnvironment] and the rest of the process *)

Lemma fixed_environ_lookup (os : OS) (env : gmap string string) (name : string) :
  fixed_environ os env !! name =
    if bool_decide (name ∈ fixed_names os)
    then (if bool_decide (name = "TERM") then Some "terminator" else None)
    else env !! name.
Proof.
  unfold fixed_environ, fixed_names.
  destruct (defined_APPLE os);
    rewrite ?lookup_delete, ?lookup_insert;
    repeat case_decide; repeat case_bool_decide; subst;
    try done;
    repeat match goal with
      | H : _ ∈ _ :: _ |- _ => apply elem_of_cons in H as [H|H]
      | H : _ ∈ [] |- _ => by apply elem_of_nil in H
      | H : ¬ (_ ∈ _ :: _) |- _ => apply not_elem_of_cons in H as [? H]
      end;
    congruence.
Qed.

Lemma fixEnvironment_fixed_environ (os : OS) (w : World) :
  ∃ w', fixEnvironment os w = (Ret tt, w')
        ∧ environ w' = fixed_environ os (environ w)
        ∧ fds w' = fds w
        ∧ ptyName w' = ptyName w
        ∧ masterFd w' = masterFd w.
Proof.
  unfold fixEnvironment, fixed_environ, bind, putenv, unsetenv, modify.
  destruct (defined_APPLE os); eexists; by repeat split.
Qed.

(** X13. [fixEnvironment] changes the variables it names and nothing else: every
    other variable of the environment is as it was inherited, and so are the
    open descriptors, the name of the pseudo-terminal and [masterFd]. *)
Theorem fixEnvironment_keeps_other_variables (os : OS) (w : World) (name : string) :
  bool_decide (name ∈ fixed_names os) = false →
  ∃ w', fixEnvironment os w = (Ret tt, w')
        ∧ environ w' !! name = environ w !! name
        ∧ fds w' = fds w
        ∧ ptyName w' = ptyName w
        ∧ masterFd w' = masterFd w.
Proof.
  intros Hname.
  destruct (fixEnvironment_fixed_environ os w) as (w' & Hrun & Henv & Hrest).
  exists w'. split; [done|].
  split; [|done]. by rewrite Henv, fixed_environ_lookup, Hname.
Qed.

Lemma fixEnvironment_keeps_other_variables_witness :
  ∃ w', fixEnvironment (system opens_all) launched_child = (Ret tt, w')
        ∧ environ w' !! "HOME" = environ launched_child !! "HOME"
        ∧ fds w' = fds launched_child
        ∧ ptyName w' = ptyName launched_child
        ∧ masterFd w' = masterFd launched_child.
Proof.
  apply (fixEnvironment_keeps_other_variables (system opens_all) launched_child
           "HOME").
  vm_compute. reflexivity.
Defined.

(** X14. [fixEnvironment] run a second time changes nothing of the environment
    the first run left. *)
Theorem fixEnvironment_twice (os : OS) (w : World) :
  ∃ w1 w2, fixEnvironment os w = (Ret tt, w1)
           ∧ fixEnvironment os w1 = (Ret tt, w2)
           ∧ environ w2 = environ w1.
Proof.
  destruct (fixEnvironment_fixed_environ os w) as (w1 & Hrun1 & Henv1 & _).
  destruct (fixEnvironment_fixed_environ os w1) as (w2 & Hrun2 & Henv2 & _).
  exists w1, w2. split; [done|]. split; [done|].
  rewrite Henv2, Henv1. apply map_eq. intros name.
  rewrite !fixed_environ_lookup. by case_bool_decide.
Qed.

(** ** The exception classes *)

(** X15. An exception of class [child_exception_via_pipe] is taken by a handler
    for that class and by no handler for one of its bases, whose derivation
    is private; the handler for [std::exception] takes an exception of every
    other class of the file. *)
Theorem via_pipe_is_taken_by_no_base_handler (T E : cxx_class) :
  handler_matches T child_exception_via_pipe
  = bool_decide (T = child_exception_via_pipe)
  ∧ handler_matches std_exception E
    = negb (bool_decide (E = child_exception_via_pipe)).
Proof. by destruct T, E. Qed.

(** ** [closeUnusedFiles] on decimal names *)

Lemma digit_of_pretty_N_char (d : N) :
  (d < 10)%N →
  digit_of (pretty_N_char d) = Some (Z.of_N d)
  ∧ isspace (pretty_N_char d) = false
  ∧ Ascii.eqb (pretty_N_char d) "-" = false
  ∧ Ascii.eqb (pretty_N_char d) "+" = false.
Proof.
  intros Hd.
  assert (d = 0 ∨ d = 1 ∨ d = 2 ∨ d = 3 ∨ d = 4 ∨ d = 5 ∨ d = 6 ∨ d = 7
          ∨ d = 8 ∨ d = 9)%N as Hcases by lia.
  repeat destruct Hcases as [->|Hcases]; [..|subst d]; by vm_compute.
Qed.

Lemma digits_value_pretty_N_go (x : N) (s : string) (acc : Z) :
  ∃ p, digits_value (pretty_N_go x s) acc = digits_value s (acc * p + Z.of_N x).
Proof.
  revert s acc. induction (N.lt_wf_0 x) as [x _ IH]. intros s acc.
  destruct (decide (x = 0%N)) as [->|Hpos].
  - exists 1. rewrite pretty_N_go_0. f_equal. lia.
  - rewrite pretty_N_go_step by lia.
    destruct (IH (x `div` 10)%N) with (s := String (pretty_N_char (x `mod` 10)) s)
                                      (acc := acc) as [p Hp].
    { apply N.div_lt; lia. }
    exists (p * 10). rewrite Hp. cbn [digits_value].
    destruct (digit_of_pretty_N_char (x `mod` 10)) as (-> & _).
    { apply N.mod_lt. lia. }
    f_equal.
    assert (Hx : Z.of_N x = 10 * Z.of_N (x `div` 10) + Z.of_N (x `mod` 10)).
    { rewrite <- (N2Z.inj_mul 10), <- N2Z.inj_add. f_equal. by apply N.div_mod. }
    lia.
Qed.

Lemma pretty_N_go_first (x : N) (s : string) :
  (0 < x)%N →
  ∃ d s', (d < 10)%N ∧ pretty_N_go x s = String (pretty_N_char d) s'.
Proof.
  revert s. induction (N.lt_wf_0 x) as [x _ IH]. intros s Hpos.
  rewrite pretty_N_go_step by done.
  destruct (decide (x `div` 10 = 0)%N) as [->|Hdiv].
  - rewrite pretty_N_go_0. eexists _, _. split; [|done]. apply N.mod_lt. lia.
  - apply IH; [apply N.div_lt; lia|by apply N.neq_0_lt_0].
Qed.

Lemma strtoul_unsigned (os : OS) (c : ascii) (s : string) :
  isspace c = false →
  Ascii.eqb c "-" = false →
  Ascii.eqb c "+" = false →
  strtoul os (String c s)
  = if ULONG_MAX os <? digits_value (String c s) 0 then ULONG_MAX os
    else digits_value (String c s) 0.
Proof.
  intros Hspace Hminus Hplus. unfold strtoul. cbn [skip_space].
  by rewrite Hspace, Hminus, Hplus.
Qed.

Lemma ULONG_MAX_large (os : OS) (n : Z) :
  32 ≤ ulong_bits os → n < 2 ^ 31 → (ULONG_MAX os <? n) = false.
Proof.
  intros Hbits Hn.
  assert (Hmax : 2 ^ 32 ≤ 2 ^ ulong_bits os) by (apply Z.pow_le_mono_r; lia).
  apply Z.ltb_ge. unfold ULONG_MAX. lia.
Qed.

(** The number [closeUnusedFiles] reads in the decimal name of a descriptor
    is that descriptor. *)
Lemma entry_fd_toString (os : OS) (n : Z) :
  32 ≤ ulong_bits os →
  0 ≤ n < 2 ^ 31 →
  entry_fd os (toString n) = n.
Proof.
  intros Hbits Hn.
  assert (Hto : to_int n = n).
  { unfold to_int. rewrite Z.mod_small by lia. lia. }
  unfold entry_fd, toString.
  destruct n as [|x|x]; [| |lia].
  - change (pretty 0) with "0". rewrite strtoul_unsigned by done.
    change (digits_value "0" 0) with 0. by rewrite ULONG_MAX_large by lia.
  - change (pretty (Z.pos x)) with (pretty_N_go (N.pos x) "").
    destruct (pretty_N_go_first (N.pos x) "") as (d & s' & Hd & Hfirst); [lia|].
    destruct (digits_value_pretty_N_go (N.pos x) "" 0) as [p Hp].
    destruct (digit_of_pretty_N_char d Hd) as (_ & Hspace & Hminus & Hplus).
    rewrite Hfirst, strtoul_unsigned by done. rewrite <- Hfirst, Hp.
    cbn [digits_value]. change (0 * p + Z.of_N (N.pos x)) with (Z.pos x).
    by rewrite ULONG_MAX_large by lia.
Qed.

Lemma entry_fd_dots (os : OS) :
  32 ≤ ulong_bits os → entry_fd os "." = 0 ∧ entry_fd os ".." = 0.
Proof.
  intros Hbits. unfold entry_fd. rewrite !strtoul_unsigned by done.
  change (digits_value "." 0) with 0. change (digits_value ".." 0) with 0.
  by rewrite ULONG_MAX_large by lia.
Qed.

(** X16. Where the descriptor directory holds the entries [.] and [..] and the
    decimal names of descriptors, [closeUnusedFiles] closes the descriptors
    above 2 that are named, in the order of the directory, and no other. *)
Theorem closeUnusedFiles_decimal_names (os : OS) (w : World) (l : list Z) :
  32 ≤ ulong_bits os →
  forallb (λ n, (0 <=? n) && (n <? 2 ^ 31)) l = true →
  os_readdir os (fdDirectory os) = "." :: ".." :: map toString l →
  ∃ w', closeUnusedFiles os w = (Ret tt, w')
        ∧ calls_since w w'
          = EvReaddir (fdDirectory os) :: map EvClose (List.filter (Z.ltb 2) l)
        ∧ ∀ fd, fd ∈ fds w' ↔ fd ∈ fds w ∧ ¬ (2 < fd ∧ fd ∈ l).
Proof.
  intros Hbits Hl Hdir.
  assert (Hclosed : closed_fds os = List.filter (Z.ltb 2) l).
  { unfold closed_fds. rewrite Hdir. cbn [map].
    destruct (entry_fd_dots os Hbits) as [-> ->]. cbn [List.filter Z.ltb Z.compare].
    f_equal. rewrite map_map. rewrite <- (map_id l) at 2.
    apply map_ext_in. intros n Hin.
    rewrite forallb_forall in Hl. apply Hl in Hin.
    apply andb_true_iff in Hin as [Hge Hlt].
    apply Z.leb_le in Hge. apply Z.ltb_lt in Hlt.
    by apply entry_fd_toString. }
  unfold closeUnusedFiles, bind, sys_readdir.
  rewrite collect_fds_filter, close_fds_eval. cbn [app]. fold (closed_fds os).
  rewrite Hclosed.
  destruct (after_closes_spec (List.filter (Z.ltb 2) l)
              (log (EvReaddir (fdDirectory os)) w)) as (Htrace & _ & Hfds).
  eexists. split; [reflexivity|]. split.
  - apply calls_since_app. rewrite Htrace. simpl. by rewrite <- app_assoc.
  - intros fd. rewrite Hfds. cbn [fds log].
    rewrite !list_elem_of_In, filter_In, Z.ltb_lt. tauto.
Qed.

Lemma closeUnusedFiles_decimal_names_witness :
  ∃ w', closeUnusedFiles (system opens_all) child_with_socket = (Ret tt, w')
        ∧ calls_since child_with_socket w'
          = EvReaddir (fdDirectory (system opens_all))
            :: map EvClose (List.filter (Z.ltb 2) [0; 1; 2; 3])
        ∧ ∀ fd, fd ∈ fds w' ↔
                fd ∈ fds child_with_socket ∧ ¬ (2 < fd ∧ fd ∈ [0; 1; 2; 3]).
Proof.
  apply (closeUnusedFiles_decimal_names (system opens_all) child_with_socket
           [0; 1; 2; 3]); vm_compute; done.
Defined.

(** ** A step on the slave that fails *)

Lemma until_slave_reaches {B} (os : OS) (workingDirectory : option string)
    (k : Z → M B) (w : World) (Φ : Outcome B * World → Prop) :
  chdir_succeeds os workingDirectory = true →
  os_setsid os = Ok →
  os_open os (ptyName w) = Ok →
  (∀ w3, reached w (slave_calls os w workingDirectory) (ptyName w)
           (({[lowest_free (fds w)]} ∪ fds w) ∖ {[masterFd w]}) (environ w) w3 →
         Φ (k (lowest_free (fds w)) w3)) →
  Φ (until_slave os workingDirectory k w).
Proof.
  intros Hchdir Hsetsid Hopen Hk. unfold until_slave.
  apply rets_bind
    with (Q := λ _ w1, masterFd w1 = masterFd w
                       ∧ reached w (chdir_calls workingDirectory)
                           (ptyName w) (fds w) (environ w) w1).
  { destruct workingDirectory as [dir|].
    - simpl in Hchdir. apply bool_decide_eq_true in Hchdir.
      unfold rets, bind, sys_chdir. rewrite answer_eq, Hchdir. simpl.
      by eexists _, _.
    - eexists _, _. split; [reflexivity|]. split; [done|].
      unfold reached. simpl. by rewrite app_nil_r. }
  intros ? w1 (Hm1 & Ht1).
  eapply rets_bind; [by eapply rets_answer|].
  intros v w2 (-> & Hm2 & (Htrace2 & Hname2 & Hfds2 & Henv2)).
  rewrite Hsetsid. cbn [is_ok Z.ltb Z.compare]. rewrite bind_ret.
  unfold bind at 1. rewrite openSlaveAndCloseMaster_eval. cbn zeta.
  destruct (after_chown_chmod_unchanged os w2) as (Hn & _ & Hf & He & Htr).
  rewrite Hname2, Hopen, Hfds2, Hm2, Hm1. apply Hk.
  unfold reached, slave_calls. cbn [trace ptyName fds environ log set_fds].
  rewrite Htr, Htrace2, Hname2, Hn, He, Hname2, Henv2, <- !app_assoc. done.
Qed.

(** X17. In a child in which [ioctl(childFd, TIOCSCTTY, 0)] fails, on a platform
    that defines [TIOCSCTTY], the text "Error from child: ioctl(<childFd>,
    TIOCSCTTY, 0)" with the error of [ioctl] is printed on the slave, and the
    [child_exception_via_pipe] leaves [forkAndExec]: nothing is printed on
    standard error, [exit] is not called, and no later call of the bootstrap
    is made. *)
Theorem forkAndExec_child_failed_ioctl (os : OS) (cmd : list string)
    (workingDirectory : option string) (w : World) (err : Z) :
  os_fork os = 0 →
  defined_TIOCSCTTY os = true →
  chdir_succeeds os workingDirectory = true →
  os_setsid os = Ok →
  os_open os (ptyName w) = Ok →
  os_ioctl os (lowest_free (fds w)) TIOCSCTTY = Fail err →
  let childFd := lowest_free (fds w) in
  let text := error_from_child os
                ("ioctl(" +:+ toString childFd +:+ ", TIOCSCTTY, 0)") err in
  ∃ w', forkAndExec os cmd workingDirectory w
        = (Throw (Exn child_exception_via_pipe text), w')
        ∧ calls_since w w'
          = slave_calls os w workingDirectory
            ++ [EvIoctl childFd TIOCSCTTY; EvFprintf childFd (text +:+ newline)].
Proof.
  intros Hfork Hdef Hchdir Hsetsid Hopen Hioctl childFd text.
  subst childFd text. rewrite forkAndExec_child by done.
  pattern (runChild os cmd workingDirectory w).
  refine (until_slave_reaches os workingDirectory _ w _ Hchdir Hsetsid Hopen _).
  intros w3 (Htrace & _).
  rewrite Hdef. unfold bind at 1 2, sys_ioctl. rewrite answer_eq, Hioctl.
  cbn [Z.ltb Z.compare].
  unfold bind, new_child_exception_via_pipe, new_child_exception,
    new_unix_exception, emit, throw, ret, bind.
  cbn [exn_class what errno after_answer set_errno log handler_matches].
  change (handler_matches std_exception child_exception_via_pipe) with false.
  cbv iota. eexists. split; [reflexivity|].
  apply calls_since_app. cbn [trace log set_errno].
  rewrite Htrace, <- !app_assoc. done.
Qed.

Lemma forkAndExec_child_failed_ioctl_witness :
  let os := with_ioctl (λ _ _, Fail ENOTTY) (system opens_all) in
  let childFd := lowest_free (fds child_process) in
  let text := error_from_child os
                ("ioctl(" +:+ toString childFd +:+ ", TIOCSCTTY, 0)") ENOTTY in
  ∃ w', forkAndExec os ["sh"] None child_process
        = (Throw (Exn child_exception_via_pipe text), w')
        ∧ calls_since child_process w'
          = slave_calls os child_process None
            ++ [EvIoctl childFd TIOCSCTTY; EvFprintf childFd (text +:+ newline)].
Proof.
  apply (forkAndExec_child_failed_ioctl
           (with_ioctl (λ _ _, Fail ENOTTY) (system opens_all)) ["sh"] None
           child_process ENOTTY); reflexivity.
Defined.

Lemma terminal_steps_reaches {B} (os : OS) (childFd : Z) (k : M B)
    (w0 w : World) (calls : list Event) (name : string) (open : gset Z)
    (env : gmap string string) (Φ : Outcome B * World → Prop) :
  negb (defined_TIOCSCTTY os) || is_ok (os_ioctl os childFd TIOCSCTTY) = true →
  reached w0 calls name open env w →
  (∀ w5, reached w0 (calls ++ terminal_calls os childFd) name open env w5 →
         Φ (k w5)) →
  Φ (terminal_steps os childFd k w).
Proof.
  intros Hioctl Hw Hk. unfold terminal_steps, terminal_calls in *.
  apply rets_bind
    with (Q := λ _ w4,
            reached w0
              (calls ++ (if defined_TIOCSCTTY os then [EvIoctl childFd TIOCSCTTY]
                         else []))
              name open env w4).
  { destruct (defined_TIOCSCTTY os).
    - simpl in Hioctl. unfold rets, sys_ioctl.
      eapply rets_bind; [by eapply rets_answer|].
      intros v w4 (-> & _ & Ht4). rewrite Hioctl. by eexists _, _.
    - eexists _, _. split; [reflexivity|]. by rewrite app_nil_r. }
  intros ? w4 Ht4; cbv beta in Ht4.
  eapply rets_bind; [|intros ? w5 Ht5; apply Hk; exact Ht5].
  destruct (defined_sun os).
  - unfold rets, sys_ioctl.
    eapply rets_bind; [by eapply rets_answer|]. intros ? w5 (_ & _ & Ht5).
    eapply rets_bind; [by eapply rets_answer|]. intros ? w6 (_ & _ & Ht6).
    eapply rets_bind; [by eapply rets_answer|]. intros ? w7 (_ & _ & Ht7).
    eexists _, _. split; [reflexivity|].
    destruct Ht7 as (Htr & Hn & Hf & He). unfold reached.
    rewrite Htr, <- !app_assoc. done.
  - eexists _, _. split; [reflexivity|].
    destruct Ht4 as (Htr & Hn & Hf & He). unfold reached.
    rewrite Htr, app_nil_r, <- ?app_assoc. done.
Qed.

(** X18. In a child in which [dup2(childFd, STDIN_FILENO)] fails, the text "Error
    from child: dup2(<childFd>, STDIN_FILENO)" with the error of [dup2] is
    printed on the slave, and the [child_exception_via_pipe] leaves
    [forkAndExec]: nothing is printed on standard error, [exit] is not
    called, and no later call of the bootstrap is made. *)
Theorem forkAndExec_child_failed_dup2 (os : OS) (cmd : list string)
    (workingDirectory : option string) (w : World) (err : Z) :
  os_fork os = 0 →
  chdir_succeeds os workingDirectory = true →
  os_setsid os = Ok →
  os_open os (ptyName w) = Ok →
  negb (defined_TIOCSCTTY os)
  || is_ok (os_ioctl os (lowest_free (fds w)) TIOCSCTTY) = true →
  lowest_free (fds w) ≠ STDIN_FILENO →
  os_dup2 os (lowest_free (fds w)) STDIN_FILENO = Fail err →
  let childFd := lowest_free (fds w) in
  let text := error_from_child os
                ("dup2(" +:+ toString childFd +:+ ", " +:+ "STDIN_FILENO" +:+ ")")
                err in
  ∃ w', forkAndExec os cmd workingDirectory w
        = (Throw (Exn child_exception_via_pipe text), w')
        ∧ calls_since w w'
          = slave_calls os w workingDirectory
            ++ terminal_calls os childFd
            ++ [EvDup2 childFd STDIN_FILENO; EvFprintf childFd (text +:+ newline)].
Proof.
  intros Hfork Hchdir Hsetsid Hopen Hioctl Hne Hdup childFd text.
  subst childFd text. rewrite forkAndExec_child by done.
  pattern (runChild os cmd workingDirectory w).
  refine (until_slave_reaches os workingDirectory _ w _ Hchdir Hsetsid Hopen _).
  intros w3 Hw3.
  match goal with |- context [match ?t with pair _ _ => _ end] => pattern t end.
  refine (terminal_steps_reaches os _ _ w w3 _ _ _ _ _ Hioctl Hw3 _).
  intros w5 (Htrace & _).
  apply Z.eqb_neq in Hne.
  unfold bind at 1, rebind. rewrite Hne. cbn [negb].
  unfold bind at 1 2, sys_dup2. rewrite Hdup.
  cbn [Z.eqb negb STDIN_FILENO].
  unfold bind, new_child_exception_via_pipe, new_child_exception,
    new_unix_exception, emit, throw, ret, bind.
  cbn [exn_class what errno set_errno log].
  change (handler_matches std_exception child_exception_via_pipe) with false.
  cbv iota. eexists. split; [reflexivity|].
  apply calls_since_app. cbn [trace log set_errno].
  rewrite Htrace, <- !app_assoc. done.
Qed.

Lemma forkAndExec_child_failed_dup2_witness :
  let os := with_dup2 (λ _ _, Fail EMFILE) (system opens_all) in
  let childFd := lowest_free (fds child_process) in
  let text := error_from_child os
                ("dup2(" +:+ toString childFd +:+ ", " +:+ "STDIN_FILENO" +:+ ")")
                EMFILE in
  ∃ w', forkAndExec os ["sh"] None child_process
        = (Throw (Exn child_exception_via_pipe text), w')
        ∧ calls_since child_process w'
          = slave_calls os child_process None
            ++ terminal_calls os childFd
            ++ [EvDup2 childFd STDIN_FILENO; EvFprintf childFd (text +:+ newline)].
Proof.
  apply (forkAndExec_child_failed_dup2
           (with_dup2 (λ _ _, Fail EMFILE) (system opens_all)) ["sh"] None
           child_process EMFILE); vm_compute; done.
Defined.

(** ** [openMaster], then the child *)

Lemma descriptors_valid_spec (w : World) :
  descriptors_valid w = true ↔ ∀ fd, fd ∈ fds w → 0 ≤ fd.
Proof.
  unfold descriptors_valid. rewrite forallb_forall. split.
  - intros Hvalid fd Hfd. apply Z.leb_le, Hvalid.
    by apply list_elem_of_In, elem_of_elements.
  - intros Hvalid fd Hfd. apply Z.leb_le, Hvalid.
    by apply elem_of_elements, list_elem_of_In.
Qed.

(** X19. A successful [openMaster] sets up what the child needs: the master
    it stores in [masterFd] is open, and no descriptor number is negative if
    none was.  So in a child forked after it, whose checked calls all succeed
    and whose descriptor directory names the descriptors that are open,
    [forkAndExec] opens the slave that [openMaster] named, closes the master
    that [openMaster] returned, and replaces the program with the descriptors
    0, 1 and 2 open and no other. *)
Theorem openMaster_then_child_replaces_program (os : OS) (cmd : list string)
    (workingDirectory : option string) (w w1 : World) (m : Z) :
  descriptors_valid w = true →
  openMaster os w = (Ret m, w1) →
  os_fork os = 0 →
  lists_open_descriptors os w1 = true →
  bootstrap_succeeds os w1 cmd workingDirectory = true →
  (m ∈ fds w1) ∧ masterFd w1 = m ∧ descriptors_valid w1 = true ∧
  ∃ w2, forkAndExec os cmd workingDirectory w1 = (Replaced, w2)
        ∧ calls_since w1 w2 = bootstrap_calls os w1 cmd workingDirectory
        ∧ EvOpen (ptyName w1) [O_RDWR; O_NOCTTY] (lowest_free (fds w1))
            ∈ calls_since w1 w2
        ∧ EvClose m ∈ calls_since w1 w2
        ∧ fds w2 = {[0; 1; 2]}.
Proof.
  intros Hvalid Hopen Hfork Hlisted Hok.
  destruct (openMaster_outcome os w) as (r & w' & Hrun & Hr).
  rewrite Hopen in Hrun. injection Hrun as <- <-. cbn zeta in Hr.
  destruct Hr as (Hm & Hmaster & Hfds & Hfree).
  assert (Hin : m ∈ fds w1).
  { rewrite Hfds, Hm. apply elem_of_union. left. by apply elem_of_singleton. }
  assert (Hvalid1 : descriptors_valid w1 = true).
  { apply descriptors_valid_spec. intros fd. rewrite Hfds.
    rewrite elem_of_union, elem_of_singleton. intros [->|Hfd].
    - apply lowest_free_nonneg.
    - by apply (proj1 (descriptors_valid_spec w)). }
  split; [done|]. split; [congruence|]. split; [done|].
  apply andb_true_iff in Hok as [Hsteps Hexec].
  rewrite forkAndExec_child by done.
  destruct (runChild_reaches_execvp os cmd workingDirectory w1 Hsteps)
    as (w2 & -> & Htrace & Hname & Hfds2 & Henv).
  unfold exec_or_throw, bind, sys_execvp. cbn zeta.
  destruct (os_execvp os (hd "" cmd) cmd); [|done].
  eexists. split; [reflexivity|]. cbn [fds log].
  assert (Hcalls : calls_since w1 (log (EvExecvp (hd "" cmd) cmd) w2)
                   = bootstrap_calls os w1 cmd workingDirectory).
  { by apply calls_since_app. }
  rewrite Hcalls. split; [done|].
  assert (Hmaster1 : masterFd w1 = m) by congruence.
  split; [|split].
  - unfold bootstrap_calls. cbn zeta. rewrite !elem_of_app.
    right. right. left. right. rewrite elem_of_cons. by left.
  - unfold bootstrap_calls. cbn zeta. rewrite !elem_of_app, Hmaster1.
    right. right. left. right. rewrite !elem_of_cons. right. by left.
  - rewrite Hfds2. apply descriptors_0_1_2; [congruence|done|done].
Qed.

Lemma openMaster_then_child_replaces_program_witness :
  let os := system opens_all in
  let w1 := (openMaster os process).2 in
  (3 ∈ fds w1) ∧ masterFd w1 = 3 ∧ descriptors_valid w1 = true ∧
  ∃ w2, forkAndExec os ["sh"] None w1 = (Replaced, w2)
        ∧ calls_since w1 w2 = bootstrap_calls os w1 ["sh"] None
        ∧ EvOpen (ptyName w1) [O_RDWR; O_NOCTTY] (lowest_free (fds w1))
            ∈ calls_since w1 w2
        ∧ EvClose 3 ∈ calls_since w1 w2
        ∧ fds w2 = {[0; 1; 2]}.
Proof.
  apply (openMaster_then_child_replaces_program (system opens_all) ["sh"] None
           process (openMaster (system opens_all) process).2 3);
    vm_compute; reflexivity.
Defined.
